(** * Conditional k-nearest-neighbour matching workflow

    A shallow embedding of the notebook "Exploring Art across Culture and
    Medium with Fast, Conditional, k-Nearest Neighbors": the query
    orchestrator [add_matches], the presenter [plot_img] / [plot_urls] and
    the driver [test_all], together with the parts of the DataFrame,
    plotting and matching APIs they call.

    Modelling conventions.
    - A DataFrame is represented by the table it evaluates to, held
      column-wise: the list order of [cols] is the schema order and every
      column carries one cell per row.  Deferred evaluation of query plans
      is not modelled; the match requests of a plan are attributed to the
      [transform] call that introduces them.
    - Column names are compared as Spark's default resolver does, that is
      ignoring case; the fields of a collected row are looked up by their
      exact name, as [Row.__getitem__] does.
    - Numbers (embedding components, distances) are exact integers; no
      statement below depends on rounding.
    - Python exceptions and mutable state are an exception-and-state monad
      [M] over a [World]; the state reached at a raise is kept. *)

From Stdlib Require Import String List ZArith Lia Bool Arith.
From Stdlib Require DecimalString DecimalNat Finite.
Import ListNotations.
Open Scope string_scope.
Open Scope list_scope.

(* ================================================================== *)
(** ** Values, tables, figures and the world *)

(** Cells of a table.  A match result is an array of structs with a
    [value] and a [distance] field. *)
Inductive Value : Type :=
| VNull
| VString (s : string)
| VVector (v : list Z)
| VArray (l : list string)
| VMatches (ms : list Match)
with Match : Type :=
| mkMatch (value : Value) (distance : Z).

Definition value (m : Match) : Value := let (v, _) := m in v.
Definition distance (m : Match) : Z := let (_, d) := m in d.

Record DataFrame : Type := mkDataFrame {
  nrows : nat;
  cols : list (string * list Value)
}.

Definition columns (df : DataFrame) : list string := map fst (cols df).

(** One entry of a fitted index: embedding, conditioning label, payload. *)
Record Entry : Type := mkEntry {
  features : list Z;
  label : string;
  payload : Value
}.

Definition BallTree : Type := list Entry.

Record MatchRequest : Type := mkRequest {
  req_index : string;
  req_query : list Z;
  req_conditioner : list string;
  req_k : nat
}.

Definition Image : Type := string.

(** One drawn subplot: grid position, decoded image, optional title. *)
Record Axes : Type := mkAxes {
  ax_row : nat;
  ax_col : nat;
  ax_image : Image;
  ax_title : option string
}.

Record Figure : Type := mkFigure {
  fig_nrows : nat;
  fig_ncols : nat;
  fig_axes : list Axes
}.

Inductive Error : Type :=
| AnalysisException (column : string)
| UDFException
| NotFitted (field : string)
| BuildError
| ValueError
| TypeError
| IndexError
| AttributeError
| MissingSchema
| ConnectionError (url : string)
| UnidentifiedImageError (url : string)
| FileNotFoundError (path : string)
| PermissionError (path : string).

(** The state the notebook runs in: the entity store, the fitted indexes
    (one per conditioning label field), the match requests issued so far,
    pyplot's current figure, the files written by [savefig], and the file
    system with the output formats of the plotting backend, given by the
    exception, if any, that writing a figure under a file name raises
    (ValueError for a format that is not supported, FileNotFoundError for
    a directory that does not exist, ...). *)
Record World : Type := mkWorld {
  entity_store : DataFrame;
  indexes : list (string * BallTree);
  requests : list MatchRequest;
  canvas : option Figure;
  artifacts : list (string * Figure);
  write_error : string -> option Error
}.

(* ================================================================== *)
(** ** Exceptions and state *)

Inductive Result (A : Type) : Type :=
| Ok (a : A)
| Raise (e : Error).
Arguments Ok {A} a.
Arguments Raise {A} e.

Definition M (A : Type) : Type := World -> Result A * World.

Definition ret {A} (a : A) : M A := fun w => (Ok a, w).
Definition raise {A} (e : Error) : M A := fun w => (Raise e, w).
Definition bind {A B} (m : M A) (f : A -> M B) : M B :=
  fun w => match m w with
           | (Ok a, w') => f a w'
           | (Raise e, w') => (Raise e, w')
           end.

Declare Scope monad_scope.
Delimit Scope monad_scope with monad.
Notation "x <- m ;; f" := (bind m (fun x => f))
  (at level 61, m at next level, right associativity) : monad_scope.
Notation "m ;;; f" := (bind m (fun _ => f))
  (at level 61, right associativity) : monad_scope.
Open Scope monad_scope.

(** Expressions that neither read nor write the world. *)
Definition liftR {A} (r : Result A) : M A := fun w => (r, w).

Definition of_option {A} (e : Error) (o : option A) : Result A :=
  match o with
  | Some a => Ok a
  | None => Raise e
  end.

Definition lift {A} (e : Error) (o : option A) : M A :=
  liftR (of_option e o).

Fixpoint mapM {A B} (f : A -> M B) (l : list A) : M (list B) :=
  match l with
  | [] => ret []
  | x :: xs => y <- f x ;; ys <- mapM f xs ;; ret (y :: ys)
  end.

Fixpoint foldM {A B} (f : A -> B -> M A) (a : A) (l : list B) : M A :=
  match l with
  | [] => ret a
  | x :: xs => a' <- f a x ;; foldM f a' xs
  end.

Fixpoint forM_ {A} (l : list A) (f : A -> M unit) : M unit :=
  match l with
  | [] => ret tt
  | x :: xs => f x ;;; forM_ xs f
  end.

(* ================================================================== *)
(** ** Column names *)

(** The lower-case form of a letter A-Z; any other character is left as
    it is.  Names are taken to be ASCII, as those of the notebook and of
    its data are. *)
Definition lower_ascii (c : Ascii.ascii) : Ascii.ascii :=
  let n := Ascii.nat_of_ascii c in
  if Nat.leb 65 n && Nat.leb n 90 then Ascii.ascii_of_nat (n + 32) else c.

Fixpoint lower (s : string) : string :=
  match s with
  | EmptyString => EmptyString
  | String c s' => String (lower_ascii c) (lower s')
  end.

(** Spark's resolver in its default setting ([spark.sql.caseSensitive] is
    false): two column names are the same when they are equal ignoring
    case. *)
Definition same_name (a b : string) : bool :=
  String.eqb (lower a) (lower b).
Arguments same_name : simpl never.

(* ================================================================== *)
(** ** DataFrame operations *)

Definition Column : Type := DataFrame -> list Value.

(** [array(lit(l1), ..., lit(ln))]: the same array of strings on every row. *)
Definition array_lit (labels : list string) : Column :=
  fun df => repeat (VArray labels) (nrows df).

Definition has_column (name : string) (df : DataFrame) : bool :=
  existsb (fun c => same_name (fst c) name) (cols df).

(** [df.withColumn(name, ...)]: every existing column of that name,
    whatever its case, is replaced in place by the new column, under the
    new name; when there is none the column is appended. *)
Definition set_column (name : string) (cells : list Value) (df : DataFrame)
  : DataFrame :=
  if has_column name df
  then mkDataFrame (nrows df)
         (map (fun c => if same_name (fst c) name then (name, cells) else c)
              (cols df))
  else mkDataFrame (nrows df) (cols df ++ [(name, cells)]).

Definition withColumn (name : string) (c : Column) (df : DataFrame)
  : DataFrame :=
  set_column name (c df) df.

(** Renames every column called [existing], whatever its case; a no-op
    when there is none. *)
Definition withColumnRenamed (existing new : string) (df : DataFrame)
  : DataFrame :=
  mkDataFrame (nrows df)
    (map (fun c => if same_name (fst c) existing then (new, snd c) else c)
         (cols df)).

(** Resolution of a reference to a column by its name (a name without dot
    or backquote, as all those of the notebook): exactly one column has
    that name, whatever its case; with several the reference is
    ambiguous. *)
Definition resolve (name : string) (df : DataFrame) : option (list Value) :=
  match filter (fun c => same_name (fst c) name) (cols df) with
  | [c] => Some (snd c)
  | _ => None
  end.

Definition col (name : string) (df : DataFrame) : M (list Value) :=
  lift (AnalysisException name) (resolve name df).

Fixpoint select_mask {A} (mask : list bool) (l : list A) : list A :=
  match mask, l with
  | b :: mask', x :: l' =>
      if b then x :: select_mask mask' l' else select_mask mask' l'
  | _, _ => []
  end.

(** [obj in test_ids] for the cell of one row. *)
Definition is_nice_obj (test_ids : list string) (obj : Value) : M bool :=
  liftR (match obj with
         | VString s => Ok (existsb (String.eqb s) test_ids)
         | VNull | VVector _ => Ok false
         | VArray _ | VMatches _ => Raise TypeError
         end).

(** [data.where(is_nice_obj("id"))]. *)
Definition where_ (pred : Value -> M bool) (name : string) (df : DataFrame)
  : M DataFrame :=
  cells <- col name df ;;
  mask <- mapM pred cells ;;
  ret (mkDataFrame (length (filter (fun b => b) mask))
         (map (fun c => (fst c, select_mask mask (snd c))) (cols df))).

Definition Row : Type := list (string * Value).

Definition collect (df : DataFrame) : list Row :=
  map (fun i => map (fun c => (fst c, nth i (snd c) VNull)) (cols df))
      (seq 0 (nrows df)).

(** [row[name]] on a collected row: the first field of exactly that
    name. *)
Definition Row_get (row : Row) (name : string) : option Value :=
  option_map snd (find (fun f => String.eqb (fst f) name) row).

Definition Row_getitem (row : Row) (name : string) : M Value :=
  lift ValueError (Row_get row name).

(* ================================================================== *)
(** ** The conditional match index *)

(** Modelled from the spec: the "embedding distance" of the index, whose
    code is not part of the notebook; taken as the squared Euclidean
    distance.  No statement below depends on the choice. *)
Fixpoint sqdist (a b : list Z) : Z :=
  match a, b with
  | x :: a', y :: b' => ((x - y) * (x - y) + sqdist a' b')%Z
  | _, _ => 0%Z
  end.

(** Modelled from the spec: "ordered by ascending distance", ties "broken
    by an unspecified but consistent internal order"; here a stable
    insertion sort, so ties keep the order of the index. *)
Fixpoint insert_match (m : Match) (l : list Match) : list Match :=
  match l with
  | [] => [m]
  | h :: t =>
      if (distance m <=? distance h)%Z then m :: l else h :: insert_match m t
  end.

Definition rank (l : list Match) : list Match := fold_right insert_match [] l.

(** Modelled from the spec: the index query of the matching library, which
    is not part of the notebook.  "For a given query vector and a given
    label condition, return the top-k entities whose label equals the
    condition, ranked by embedding distance"; the result has length at most
    k, is in ascending distance, and ties keep the order of the index. *)
Definition query (tree : BallTree) (q : list Z) (conditioner : list string)
    (k : nat) : list Match :=
  firstn k
    (rank
       (map (fun e => mkMatch (payload e) (sqdist q (features e)))
          (filter (fun e => existsb (String.eqb (label e)) conditioner)
             tree))).

(** Parameters of the estimator and of the model it fits.  A fitted model
    is a handle: its index lives in the world under its label field. *)
Record ConditionalKNN : Type := mkConditionalKNN {
  outputCol : string;
  featuresCol : string;
  valuesCol : string;
  labelCol : string;
  k : nat
}.

Definition ConditionalKNNModel : Type := ConditionalKNN.

(** The column the model reads the label condition from. *)
Definition conditionerCol : string := "conditioner".

(** Modelled from the spec: the default of the requested result count,
    which the notebook never sets ("k (fixed per run, default observed as
    1)"); the library that defines it is not part of the notebook. *)
Definition default_k : nat := 1.

(** Modelled from the spec: one entity of the index; an entity without an
    embedding or a label fails the build. *)
Definition build_entry (c : Value * (Value * Value)) : M Entry :=
  liftR (match c with
         | (VVector v, (VString l, p)) => Ok (mkEntry v l p)
         | _ => Raise BuildError
         end).

Definition bind_index (field : string) (tree : BallTree) : M unit :=
  fun w => (Ok tt,
            mkWorld (entity_store w) ((field, tree) :: indexes w)
              (requests w) (canvas w) (artifacts w) (write_error w)).

Definition lookup_index (field : string) (w : World) : option BallTree :=
  option_map snd (find (fun i => String.eqb (fst i) field) (indexes w)).

Definition get_index (field : string) : M BallTree :=
  fun w => lift (NotFitted field) (lookup_index field w) w.

Definition log_request (r : MatchRequest) : M unit :=
  fun w => (Ok tt,
            mkWorld (entity_store w) (indexes w) (requests w ++ [r])
              (canvas w) (artifacts w) (write_error w)).

(** Modelled from the spec: Build(entities, conditioning label field),
    which "fails if any entity lacks the conditioning field or the
    embedding field". *)
Definition fit (est : ConditionalKNN) (df : DataFrame)
  : M ConditionalKNNModel :=
  feats <- col (featuresCol est) df ;;
  labels <- col (labelCol est) df ;;
  vals <- col (valuesCol est) df ;;
  tree <- mapM build_entry (combine feats (combine labels vals)) ;;
  bind_index (labelCol est) tree ;;;
  ret est.

(** Modelled from the spec: one match request, the row's embedding against
    the row's conditioner, with the model's result count. *)
Definition getNeighbor (cknn : ConditionalKNNModel) (tree : BallTree)
    (c : Value * Value) : M Value :=
  match c with
  | (VVector v, VArray conditioner) =>
      log_request (mkRequest (labelCol cknn) v conditioner (k cknn)) ;;;
      ret (VMatches (query tree v conditioner (k cknn)))
  | _ => raise UDFException
  end.

(** Modelled from the spec: the model's transform, which appends (or
    overwrites) the output column with one match result per row, computed
    from the features and conditioner columns; a row whose embedding is
    absent or malformed fails the call. *)
Definition transform (cknn : ConditionalKNNModel) (df : DataFrame)
  : M DataFrame :=
  feats <- col (featuresCol cknn) df ;;
  conds <- col conditionerCol df ;;
  tree <- get_index (labelCol cknn) ;;
  cells <- mapM (getNeighbor cknn tree) (combine feats conds) ;;
  ret (set_column (outputCol cknn) cells df).

(* ================================================================== *)
(** ** The notebook: categories, models, orchestrator *)

Definition mediums : list string := ["paintings"; "glass"; "ceramics"].
Definition cultures : list string :=
  ["japanese"; "american"; "african (general)"].

(** The estimators of the two fitting cells: output, features, values and
    label columns are set; the result count is left at its default. *)
Definition medium_cknn_params : ConditionalKNN :=
  mkConditionalKNN "Matches" "Norm_Features" "Thumbnail_Url"
    "Classification" default_k.

Definition culture_cknn_params : ConditionalKNN :=
  mkConditionalKNN "Matches" "Norm_Features" "Thumbnail_Url"
    "Culture" default_k.

Definition medium_cknn (small_df : DataFrame) : M ConditionalKNNModel :=
  fit medium_cknn_params small_df.

Definition culture_cknn (small_df : DataFrame) : M ConditionalKNNModel :=
  fit culture_cknn_params small_df.

Definition matches_col (label : string) : string :=
  ("Matches_" ++ label)%string.

(** The body of the loop of [add_matches]. *)
Definition add_matches_step (cknn : ConditionalKNNModel)
    (results : DataFrame) (label : string) : M DataFrame :=
  r <- transform cknn (withColumn "conditioner" (array_lit [label]) results) ;;
  ret (withColumnRenamed "Matches" (matches_col label) r).

Definition add_matches (classes : list string) (cknn : ConditionalKNNModel)
    (df : DataFrame) : M DataFrame :=
  foldM (add_matches_step cknn) df classes.

(* ================================================================== *)
(** ** Arrays and pyplot *)

Record ndarray : Type := mkArray {
  shape : list nat;
  data : list (list Value)
}.

Definition is_scalar (v : Value) : bool :=
  match v with
  | VNull | VString _ => true
  | _ => false
  end.

(** [np.array(rows)[:, :]] for a list of lists: an empty list gives a
    one-dimensional array, which the two-dimensional slice rejects; ragged
    rows or nested cells do not give a two-dimensional array either. *)
Definition array2d (rows : list (list Value)) : Result ndarray :=
  match rows with
  | [] => Raise IndexError
  | r :: _ =>
      if forallb (fun r' => Nat.eqb (length r') (length r)
                            && forallb is_scalar r') rows
      then Ok (mkArray [length rows; length r] rows)
      else Raise ValueError
  end.

Definition np_array (rows : list (list Value)) : M ndarray :=
  liftR (array2d rows).

Definition getitem {A} (l : list A) (i : nat) : M A :=
  lift IndexError (nth_error l i).

Definition nth_error2 {A} (a : list (list A)) (i j : nat) : option A :=
  match nth_error a i with
  | Some r => nth_error r j
  | None => None
  end.

Definition getitem2 {A} (a : list (list A)) (i j : nat) : M A :=
  lift IndexError (nth_error2 a i j).

(** What [plt.subplots] returns: one axes object, or an array of them.
    An axes object is identified by its position in the grid. *)
Inductive AxesArray : Type :=
| SingleAxes (a : nat * nat)
| Axes1D (l : list (nat * nat))
| Axes2D (ll : list (list (nat * nat))).

Definition set_canvas (f : option Figure) : M unit :=
  fun w => (Ok tt,
            mkWorld (entity_store w) (indexes w) (requests w) f (artifacts w)
              (write_error w)).

(** [plt.figure(...)]: a new, empty current figure. *)
Definition figure : M unit := set_canvas (Some (mkFigure 0 0 [])).

(** The array of axes of a grid, dimensions of length one squeezed out. *)
Definition squeeze (nrows ncols : nat) : AxesArray :=
  if Nat.eqb nrows 1 && Nat.eqb ncols 1 then SingleAxes (0, 0)
  else if Nat.eqb nrows 1
       then Axes1D (map (fun c => (0, c)) (seq 0 ncols))
  else if Nat.eqb ncols 1
       then Axes1D (map (fun r => (r, 0)) (seq 0 nrows))
  else Axes2D (map (fun r => map (fun c => (r, c)) (seq 0 ncols))
                 (seq 0 nrows)).

(** [plt.subplots(nrows, ncols)]: a new current figure with a grid of
    axes. *)
Definition subplots (nrows ncols : nat) : M AxesArray :=
  if Nat.eqb nrows 0 || Nat.eqb ncols 0 then raise ValueError
  else
    set_canvas (Some (mkFigure nrows ncols [])) ;;;
    ret (squeeze nrows ncols).

(** [if len(axes.shape) == 1: axes = axes.reshape(1, -1)]; a single axes
    object has no shape. *)
Definition reshape_row (axes : AxesArray) : Result (list (list (nat * nat))) :=
  match axes with
  | SingleAxes _ => Raise AttributeError
  | Axes1D l => Ok [l]
  | Axes2D ll => Ok ll
  end.

(** [axis.imshow(img)], [axis.set_title(title)] and [axis.axis("off")] on
    the axes at position [axis] of the current figure. *)
Definition imshow (axis : nat * nat) (img : Image) (title : option string)
  : M unit :=
  fun w =>
    match canvas w with
    | Some f =>
        (Ok tt,
         mkWorld (entity_store w) (indexes w) (requests w)
           (Some (mkFigure (fig_nrows f) (fig_ncols f)
                    (fig_axes f ++ [mkAxes (fst axis) (snd axis) img title])))
           (artifacts w) (write_error w))
    | None => (Raise AttributeError, w)
    end.

(** [plt.savefig(filename)]: writes the current figure, or raises when
    the file cannot be written. *)
Definition savefig (filename : string) : M unit :=
  fun w =>
    match canvas w with
    | Some f =>
        match write_error w filename with
        | None =>
            (Ok tt,
             mkWorld (entity_store w) (indexes w) (requests w) (canvas w)
               (artifacts w ++ [(filename, f)]) (write_error w))
        | Some e => (Raise e, w)
        end
    | None => (Raise AttributeError, w)
    end.

(** [display(plt.show())]: shows and closes the current figure. *)
Definition show : M unit := set_canvas None.

Section Presenter.

(** The network and the image decoder: [None] is a failed request or an
    undecodable body. *)
Variable http_get : string -> option string.
Variable image_open : string -> option Image.

(** [Image.open(BytesIO(requests.get(url).content)).convert('RGB')]. *)
Definition fetch (url : Value) : Result Image :=
  match url with
  | VString u =>
      match http_get u with
      | Some content =>
          match image_open content with
          | Some img => Ok img
          | None => Raise (UnidentifiedImageError u)
          end
      | None => Raise (ConnectionError u)
      end
  | _ => Raise MissingSchema
  end.

Definition plot_img (axis : nat * nat) (url : Value) (title : option string)
  : M unit :=
  img <- liftR (fetch url) ;;
  imshow axis img title.

(** The body of the loops of [plot_urls]. *)
Definition plot_cell (axes : list (list (nat * nat))) (url_arr : ndarray)
    (titles : list string) (i j : nat) : M unit :=
  if Nat.eqb j 0
  then axis <- getitem2 axes j i ;;
       url <- getitem2 (data url_arr) i j ;;
       title <- getitem titles i ;;
       plot_img axis url (Some title)
  else axis <- getitem2 axes j i ;;
       url <- getitem2 (data url_arr) i j ;;
       plot_img axis url None.

Definition plot_urls (url_arr : ndarray) (titles : list string)
    (filename : string) : M unit :=
  match shape url_arr with
  | [nx; ny] =>
      figure ;;;
      axes <- subplots ny nx ;;
      axes <- liftR (reshape_row axes) ;;
      forM_ (seq 0 nx) (fun i =>
        forM_ (seq 0 ny) (fun j => plot_cell axes url_arr titles i j)) ;;;
      savefig filename ;;;
      show
  | _ => raise ValueError
  end.

(** [row["Matches_<label>"][0]["value"]]. *)
Definition first_match (row : Row) (label : string) : Result Value :=
  match Row_get row (matches_col label) with
  | Some (VMatches (m :: _)) => Ok (value m)
  | Some (VMatches []) | Some (VArray []) | Some (VVector [])
  | Some (VString EmptyString) => Raise IndexError
  | Some _ => Raise TypeError
  | None => Raise ValueError
  end.

Definition first_match_value (row : Row) (label : string) : M Value :=
  liftR (first_match row label).

Definition test_all (data : DataFrame)
    (cknn_medium cknn_culture : ConditionalKNNModel)
    (test_ids : list string) (root : string) : M DataFrame :=
  test_df <- where_ (is_nice_obj test_ids) "id" data ;;
  results_df_medium <- add_matches mediums cknn_medium test_df ;;
  results_df_culture <- add_matches cultures cknn_culture results_df_medium ;;
  let results := collect results_df_culture in
  original_urls <- mapM (fun row => Row_getitem row "Thumbnail_Url") results ;;
  culture_urls <-
    mapM (fun label => mapM (fun row => first_match_value row label) results)
         cultures ;;
  culture_url_arr <- np_array (original_urls :: culture_urls) ;;
  plot_urls culture_url_arr ("Original" :: cultures)
    (root ++ "matches_by_culture.png")%string ;;;
  medium_urls <-
    mapM (fun label => mapM (fun row => first_match_value row label) results)
         mediums ;;
  medium_url_arr <- np_array (original_urls :: medium_urls) ;;
  plot_urls medium_url_arr ("Original" :: mediums)
    (root ++ "matches_by_medium.png")%string ;;;
  ret results_df_culture.

End Presenter.

(* ================================================================== *)
(** ** Vocabulary of the statements *)

(** Pure traversal of a list, stopping at the first failure. *)
Fixpoint mapR {A B} (g : A -> Result B) (l : list A) : Result (list B) :=
  match l with
  | [] => Ok []
  | x :: xs =>
      match g x with
      | Ok y => match mapR g xs with
                | Ok ys => Ok (y :: ys)
                | Raise e => Raise e
                end
      | Raise e => Raise e
      end
  end.

(** Relations on worlds kept by every step of a computation. *)
Definition stable (R : World -> World -> Prop) {A} (m : M A) : Prop :=
  forall w r w', m w = (r, w') -> R w w'.

(** What the orchestrator leaves alone: everything but the request log. *)
Definition same_resources (w w' : World) : Prop :=
  entity_store w' = entity_store w /\ indexes w' = indexes w /\
  canvas w' = canvas w /\ artifacts w' = artifacts w.

Definition framed {A} (m : M A) : Prop := stable same_resources m.

(** Results that depend on the world through its indexes only. *)
Definition respects {A} (m : M A) : Prop :=
  forall w1 w2, indexes w1 = indexes w2 ->
    fst (m w1) = fst (m w2) /\ indexes (snd (m w1)) = indexes (snd (m w2)).

(** No column of that name, whatever its case. *)
Definition absent (name : string) (l : list (string * list Value)) : Prop :=
  existsb (fun c => same_name (fst c) name) l = false.

Definition add_requests (rs : list MatchRequest) (w : World) : World :=
  mkWorld (entity_store w) (indexes w) (requests w ++ rs) (canvas w)
    (artifacts w) (write_error w).

(** The table once its conditioner column is set and some match columns
    are appended: [pre] and [post] are the other columns of the input. *)
Definition tbl (n : nat) (pre post : list (string * list Value))
    (c : list Value) (ms : list (string * list Value)) : DataFrame :=
  mkDataFrame n (pre ++ ("conditioner", c) :: post ++ ms).

Definition inert (ms : list (string * list Value)) : Prop :=
  absent "conditioner" ms /\ absent "Matches" ms /\ absent "Norm_Features" ms.

(** The match column of one condition, for the embeddings [vs] of the rows,
    and the requests that compute it. *)
Definition match_cells (cknn : ConditionalKNNModel) (tree : BallTree)
    (vs : list (list Z)) (l : string) : list Value :=
  map (fun v => VMatches (query tree v [l] (k cknn))) vs.

Definition match_requests (cknn : ConditionalKNNModel) (vs : list (list Z))
    (l : string) : list MatchRequest :=
  map (fun v => mkRequest (labelCol cknn) v [l] (k cknn)) vs.

(** A result table an orchestration can run on, for a model configured as
    in the notebook: no output column yet, at most one conditioner column,
    one embedding per row in [Norm_Features], and an index bound for the
    model's label field; the names are those the resolver takes for the
    same, so a column "Conditioner" is a conditioner column.  A table
    seeded with the query entities' own fields is one, and so is the
    result of an earlier orchestration. *)
Definition ready (cknn : ConditionalKNNModel) (df : DataFrame) (w : World)
    (tree : BallTree) (vs : list (list Z)) : Prop :=
  outputCol cknn = "Matches" /\ featuresCol cknn = "Norm_Features" /\
  has_column "Matches" df = false /\
  length (filter (fun c => same_name (fst c) "conditioner") (cols df)) <= 1 /\
  resolve "Norm_Features" df = Some (map VVector vs) /\
  length vs = nrows df /\
  lookup_index (labelCol cknn) w = Some tree.

(** The table with its conditioner column set to one condition. *)
Definition conditioned (label : string) (df : DataFrame) : DataFrame :=
  withColumn "conditioner" (array_lit [label]) df.

(** The cells of the grid in the order the loops visit them. *)
Definition positions (nx ny : nat) : list (nat * nat) :=
  flat_map (fun i => map (pair i) (seq 0 ny)) (seq 0 nx).

(** The axes drawn so far on the current figure. *)
Definition add_axes (axs : list Axes) (w : World) : World :=
  mkWorld (entity_store w) (indexes w) (requests w)
    (match canvas w with
     | Some f => Some (mkFigure (fig_nrows f) (fig_ncols f) (fig_axes f ++ axs))
     | None => None
     end)
    (artifacts w) (write_error w).

(** What the loop body draws at one cell of the grid, or the exception it
    raises. *)
Definition cell_draw (http_get : string -> option string)
    (image_open : string -> option Image)
    (axes : list (list (nat * nat))) (arr : ndarray)
    (titles : list string) (p : nat * nat) : Result Axes :=
  match nth_error2 axes (snd p) (fst p) with
  | None => Raise IndexError
  | Some axis =>
      match nth_error2 (data arr) (fst p) (snd p) with
      | None => Raise IndexError
      | Some url =>
          if Nat.eqb (snd p) 0
          then match nth_error titles (fst p) with
               | None => Raise IndexError
               | Some t =>
                   match fetch http_get image_open url with
                   | Ok img => Ok (mkAxes (fst axis) (snd axis) img (Some t))
                   | Raise e => Raise e
                   end
               end
          else match fetch http_get image_open url with
               | Ok img => Ok (mkAxes (fst axis) (snd axis) img None)
               | Raise e => Raise e
               end
      end
  end.

(** The URL the driver puts at one cell of the array it hands to the
    presenter: row 0 holds the originals, row [i + 1] the first match of
    the i-th condition. *)
Definition cell_url (labels : list string) (results : list Row)
    (p : nat * nat) : option Value :=
  match nth_error results (snd p) with
  | None => None
  | Some row =>
      match fst p with
      | 0 => Row_get row "Thumbnail_Url"
      | S i =>
          match nth_error labels i with
          | None => None
          | Some label =>
              match first_match row label with
              | Ok v => Some v
              | Raise _ => None
              end
          end
      end
  end.

(** The axes of a rendered grid: the cell of array position (i, j) is
    drawn at grid row j and grid column i, titled on grid row 0 only. *)
Definition grid_of (http_get : string -> option string)
    (image_open : string -> option Image)
    (labels : list string) (results : list Row) (axs : list Axes) : Prop :=
  Forall2
    (fun p ax =>
       exists url img,
         cell_url labels results p = Some url /\
         fetch http_get image_open url = Ok img /\
         ax = mkAxes (snd p) (fst p) img
                (if Nat.eqb (snd p) 0
                 then nth_error ("Original" :: labels) (fst p)
                 else None))
    (positions (S (length labels)) (length results)) axs.

(** The layout of a saved figure for [n] query entities: one grid row per
    query entity, one grid column for the original and one per condition,
    every cell drawn once, and titles on the first grid row only, taken
    from "Original" and the condition labels by grid column. *)
Definition layout (labels : list string) (n : nat) (fig : Figure) : Prop :=
  fig_nrows fig = n /\
  fig_ncols fig = 1 + length labels /\
  length (fig_axes fig) = (1 + length labels) * n /\
  (forall i j, i < 1 + length labels -> j < n ->
     exists ax, In ax (fig_axes fig) /\ ax_row ax = j /\ ax_col ax = i) /\
  forall ax, In ax (fig_axes fig) ->
    ax_row ax < n /\ ax_col ax < 1 + length labels /\
    ax_title ax = if Nat.eqb (ax_row ax) 0
                  then nth_error ("Original" :: labels) (ax_col ax)
                  else None.

(** What a saved figure shows of the collected result rows: at grid row j
    the image of row j's own thumbnail in column 0, and in column i + 1 the
    image of the value of element 0 of the row's match result for the i-th
    condition; nothing else. *)
Definition shows (http_get : string -> option string)
    (image_open : string -> option Image)
    (labels : list string) (results : list Row) (fig : Figure) : Prop :=
  length (fig_axes fig) = (1 + length labels) * length results /\
  forall j row, nth_error results j = Some row ->
    (exists url img,
       Row_get row "Thumbnail_Url" = Some url /\
       fetch http_get image_open url = Ok img /\
       In (mkAxes j 0 img (if Nat.eqb j 0 then Some "Original" else None))
          (fig_axes fig)) /\
    forall i label, nth_error labels i = Some label ->
      exists m ms img,
        Row_get row (matches_col label) = Some (VMatches (m :: ms)) /\
        fetch http_get image_open (value m) = Ok img /\
        In (mkAxes j (S i) img (if Nat.eqb j 0 then Some label else None))
           (fig_axes fig).

(* ================================================================== *)
(** ** A small gallery to run the notebook on *)

Definition demo_store : DataFrame :=
  mkDataFrame 6
    [("id", [VString "a1"; VString "a2"; VString "a3";
             VString "a4"; VString "a5"; VString "a6"]);
     ("Thumbnail_Url", [VString "u1"; VString "u2"; VString "u3";
                        VString "u4"; VString "u5"; VString "u6"]);
     ("Culture", [VString "japanese"; VString "american";
                  VString "african (general)"; VString "japanese";
                  VString "american"; VString "dutch"]);
     ("Classification", [VString "paintings"; VString "glass";
                         VString "ceramics"; VString "glass";
                         VString "paintings"; VString "ceramics"]);
     ("Norm_Features", [VVector [1; 0]%Z; VVector [0; 1]%Z; VVector [1; 1]%Z;
                        VVector [2; 0]%Z; VVector [0; 2]%Z;
                        VVector [3; 3]%Z])].

(** A file system on which every figure can be written, and one without
    the directory "out". *)
Definition any_file (filename : string) : option Error := None.

Definition no_out_dir (filename : string) : option Error :=
  if String.prefix "out/" filename then Some (FileNotFoundError filename)
  else None.

(** The world once both models of the notebook are fitted on the store. *)
Definition demo_world : World :=
  snd ((medium_cknn demo_store ;;; culture_cknn demo_store)
         (mkWorld demo_store [] [] None [] any_file)).

Definition demo_medium_index : BallTree :=
  [mkEntry [1; 0]%Z "paintings" (VString "u1");
   mkEntry [0; 1]%Z "glass" (VString "u2");
   mkEntry [1; 1]%Z "ceramics" (VString "u3");
   mkEntry [2; 0]%Z "glass" (VString "u4");
   mkEntry [0; 2]%Z "paintings" (VString "u5");
   mkEntry [3; 3]%Z "ceramics" (VString "u6")].

Definition demo_culture_index : BallTree :=
  [mkEntry [1; 0]%Z "japanese" (VString "u1");
   mkEntry [0; 1]%Z "american" (VString "u2");
   mkEntry [1; 1]%Z "african (general)" (VString "u3");
   mkEntry [2; 0]%Z "japanese" (VString "u4");
   mkEntry [0; 2]%Z "american" (VString "u5");
   mkEntry [3; 3]%Z "dutch" (VString "u6")].

(** Two query entities that come with a column named "Conditioner". *)
Definition demo_cased_queries : DataFrame :=
  mkDataFrame 2
    [("id", [VString "a1"; VString "a6"]);
     ("Thumbnail_Url", [VString "u1"; VString "u6"]);
     ("Conditioner", [VString "x"; VString "y"]);
     ("Norm_Features", [VVector [1; 0]%Z; VVector [3; 3]%Z])].

(** Two query entities, seeded with their own fields only. *)
Definition demo_queries : DataFrame :=
  mkDataFrame 2
    [("id", [VString "a1"; VString "a6"]);
     ("Thumbnail_Url", [VString "u1"; VString "u6"]);
     ("Norm_Features", [VVector [1; 0]%Z; VVector [3; 3]%Z])].

(** The result of a first orchestration over the mediums, as the driver
    hands it to the second one. *)
Definition demo_medium_results : DataFrame :=
  mkDataFrame 2
    [("id", [VString "a1"; VString "a6"]);
     ("Thumbnail_Url", [VString "u1"; VString "u6"]);
     ("Norm_Features", [VVector [1; 0]%Z; VVector [3; 3]%Z]);
     ("conditioner", [VArray ["ceramics"]; VArray ["ceramics"]]);
     ("Matches_paintings", [VMatches [mkMatch (VString "u1") 0];
                            VMatches [mkMatch (VString "u5") 10]]);
     ("Matches_glass", [VMatches [mkMatch (VString "u4") 1];
                        VMatches [mkMatch (VString "u4") 10]]);
     ("Matches_ceramics", [VMatches [mkMatch (VString "u3") 1];
                           VMatches [mkMatch (VString "u6") 0]])].

(** The result of the second orchestration, over the cultures. *)
Definition demo_results : DataFrame :=
  mkDataFrame 2
    [("id", [VString "a1"; VString "a6"]);
     ("Thumbnail_Url", [VString "u1"; VString "u6"]);
     ("Norm_Features", [VVector [1; 0]%Z; VVector [3; 3]%Z]);
     ("conditioner", [VArray ["african (general)"];
                      VArray ["african (general)"]]);
     ("Matches_paintings", [VMatches [mkMatch (VString "u1") 0];
                            VMatches [mkMatch (VString "u5") 10]]);
     ("Matches_glass", [VMatches [mkMatch (VString "u4") 1];
                        VMatches [mkMatch (VString "u4") 10]]);
     ("Matches_ceramics", [VMatches [mkMatch (VString "u3") 1];
                           VMatches [mkMatch (VString "u6") 0]]);
     ("Matches_japanese", [VMatches [mkMatch (VString "u1") 0];
                           VMatches [mkMatch (VString "u4") 10]]);
     ("Matches_american", [VMatches [mkMatch (VString "u2") 2];
                           VMatches [mkMatch (VString "u5") 10]]);
     ("Matches_african (general)", [VMatches [mkMatch (VString "u3") 1];
                                    VMatches [mkMatch (VString "u3") 8]])].

(** The table the driver returns for the query entities a1 and a6 of the
    store. *)
Definition demo_driver_results : DataFrame :=
  mkDataFrame 2
    [("id", [VString "a1"; VString "a6"]);
     ("Thumbnail_Url", [VString "u1"; VString "u6"]);
     ("Culture", [VString "japanese"; VString "dutch"]);
     ("Classification", [VString "paintings"; VString "ceramics"]);
     ("Norm_Features", [VVector [1; 0]%Z; VVector [3; 3]%Z]);
     ("conditioner", [VArray ["african (general)"];
                      VArray ["african (general)"]]);
     ("Matches_paintings", [VMatches [mkMatch (VString "u1") 0];
                            VMatches [mkMatch (VString "u5") 10]]);
     ("Matches_glass", [VMatches [mkMatch (VString "u4") 1];
                        VMatches [mkMatch (VString "u4") 10]]);
     ("Matches_ceramics", [VMatches [mkMatch (VString "u3") 1];
                           VMatches [mkMatch (VString "u6") 0]]);
     ("Matches_japanese", [VMatches [mkMatch (VString "u1") 0];
                           VMatches [mkMatch (VString "u4") 10]]);
     ("Matches_american", [VMatches [mkMatch (VString "u2") 2];
                           VMatches [mkMatch (VString "u5") 10]]);
     ("Matches_african (general)", [VMatches [mkMatch (VString "u3") 1];
                                    VMatches [mkMatch (VString "u3") 8]])].

Definition demo_http (u : string) : option string := Some ("jpeg:" ++ u)%string.
Definition demo_decode (c : string) : option Image := Some ("rgb:" ++ c)%string.

(** A network on which one thumbnail cannot be fetched. *)
Definition flaky_http (u : string) : option string :=
  if String.eqb u "u4" then None else demo_http u.

(** A store without any Japanese work. *)
Definition sparse_store : DataFrame :=
  mkDataFrame 3
    [("id", [VString "b1"; VString "b2"; VString "b3"]);
     ("Thumbnail_Url", [VString "t1"; VString "t2"; VString "t3"]);
     ("Culture", [VString "american"; VString "african (general)";
                  VString "dutch"]);
     ("Classification", [VString "paintings"; VString "glass";
                         VString "ceramics"]);
     ("Norm_Features", [VVector [1; 0]%Z; VVector [0; 1]%Z;
                        VVector [1; 1]%Z])].

Definition sparse_world : World :=
  snd ((medium_cknn sparse_store ;;; culture_cknn sparse_store)
         (mkWorld sparse_store [] [] None [] any_file)).

Definition demo_url_arr : ndarray :=
  mkArray [2; 2] [[VString "u1"; VString "u6"]; [VString "u4"; VString "u4"]].

(** A store in which every culture of the notebook is present but no work
    is made of glass. *)
Definition glassless_store : DataFrame :=
  mkDataFrame 3
    [("id", [VString "c1"; VString "c2"; VString "c3"]);
     ("Thumbnail_Url", [VString "t1"; VString "t2"; VString "t3"]);
     ("Culture", [VString "japanese"; VString "american";
                  VString "african (general)"]);
     ("Classification", [VString "paintings"; VString "ceramics";
                         VString "ceramics"]);
     ("Norm_Features", [VVector [1; 0]%Z; VVector [0; 1]%Z;
                        VVector [1; 1]%Z])].

Definition glassless_world : World :=
  snd ((medium_cknn glassless_store ;;; culture_cknn glassless_store)
         (mkWorld glassless_store [] [] None [] any_file)).

(* ================================================================== *)
(** ** Further vocabulary: outcomes of a render *)

(** Whether a render returns, and what it raises otherwise: the grid must
    have a row and a column, the axes must form an array, every cell must
    draw, and the file must be written; [saved] is the exception, if any,
    of writing it. *)
Definition render_outcome (http_get : string -> option string)
    (image_open : string -> option Image) (arr : ndarray)
    (titles : list string) (nx ny : nat) (saved : option Error)
  : Result unit :=
  if Nat.eqb ny 0 || Nat.eqb nx 0 then Raise ValueError
  else match reshape_row (squeeze ny nx) with
       | Raise e => Raise e
       | Ok axes =>
           match mapR (cell_draw http_get image_open axes arr titles)
                   (positions nx ny) with
           | Ok _ => match saved with
                     | None => Ok tt
                     | Some e => Raise e
                     end
           | Raise e => Raise e
           end
       end.

(* ================================================================== *)
(** ** The rest of the matching notebook: the working set *)

Definition selected_ids : list string :=
  ["AK-RBK-17525-2"; "AK-MAK-1204"; "AK-RAK-2015-2-9"].

(** [v in s] for a set of strings [s]: a list is unhashable. *)
Definition in_set (s : list string) (v : Value) : Result bool :=
  match v with
  | VString x => Ok (existsb (String.eqb x) s)
  | VNull | VVector _ => Ok false
  | VArray _ | VMatches _ => Raise TypeError
  end.

(** [(medium in medium_set) or (culture in culture_set) or (id_val in
    selected_ids)]: a later test is evaluated only when the earlier ones
    are false. *)
Definition keep_row (c : Value * (Value * Value)) : Result bool :=
  let '(medium, (culture, id_val)) := c in
  match in_set mediums medium with
  | Raise e => Raise e
  | Ok true => Ok true
  | Ok false =>
      match in_set cultures culture with
      | Raise e => Raise e
      | Ok true => Ok true
      | Ok false => in_set selected_ids id_val
      end
  end.

(** [small_df = df.where(udf(...)("Classification", "Culture", "id"))]. *)
Definition small_df (df : DataFrame) : M DataFrame :=
  meds <- col "Classification" df ;;
  culs <- col "Culture" df ;;
  ids <- col "id" df ;;
  mask <- mapM (fun c => liftR (keep_row c))
            (combine meds (combine culs ids)) ;;
  ret (mkDataFrame (length (filter (fun b => b) mask))
         (map (fun c => (fst c, select_mask mask (snd c))) (cols df))).

(** Every column holds one cell per row. *)
Definition rectangular (df : DataFrame) : Prop :=
  Forall (fun c => length (snd c) = nrows df) (cols df).

Definition demo_rows : DataFrame :=
  mkDataFrame 4
    [("id", [VString "AK-MAK-1204"; VString "x2"; VString "x3"; VString "x4"]);
     ("Culture", [VString "dutch"; VString "japanese"; VString "dutch";
                  VNull]);
     ("Classification", [VString "prints"; VString "prints";
                         VString "glass"; VString "prints"])].

(** What the presenter leaves alone: the entity store, the indexes and
    the log of match requests. *)
Definition same_data (w w' : World) : Prop :=
  entity_store w' = entity_store w /\ indexes w' = indexes w /\
  requests w' = requests w.

Definition quiet {A} (m : M A) : Prop := stable same_data m.

(* ================================================================== *)
(** ** The regression notebook: feature names and the feature grid *)

Module Regression.

(** [str(i)] for a non-negative integer: its decimal digits. *)
Definition str (i : nat) : string :=
  DecimalString.NilZero.string_of_uint (Nat.to_uint i).

(** [["f" + str(i) for i in range(d)]], [d] the number of features. *)
Definition feature_cols (d : nat) : list string :=
  map (fun i => ("f" ++ str i)%string) (seq 0 d).

Definition header (d : nat) : list string := "target" :: feature_cols d.

(** [train_data.columns[1:]]. *)
Definition features (columns : list string) : list string := tl columns.

Definition ncols : nat := 5.

(** [math.ceil(len(features) / ncols)]; the quotient is exact here. *)
Definition nrows (features : list string) : nat :=
  (length features + (ncols - 1)) / ncols.

Inductive Exception : Type :=
| IndexError
| TypeError
| ValueError
| KeyError (name : string).

Inductive Outcome (A : Type) : Type :=
| Returns (a : A)
| Raises (e : Exception).
Arguments Returns {A} a.
Arguments Raises {A} e.

(** What the cell does to the axes of its figure, in order. *)
Inductive Event : Type :=
| set_ylabel (axis : nat * nat) (label : string)
| scatter (axis : nat * nat) (xx yy : list Z)
| set_xlabel (axis : nat * nat) (label : string)
| hide_yticks (axis : nat * nat)
| delaxes (axis : nat * nat).

(** Statements of the cell: they may raise, and append to the events. *)
Definition Plot (A : Type) : Type := list Event -> Outcome A * list Event.

Definition pure {A} (a : A) : Plot A := fun s => (Returns a, s).
Definition lift {A} (o : Outcome A) : Plot A := fun s => (o, s).
Definition emit (e : Event) : Plot unit := fun s => (Returns tt, s ++ [e]).
Definition bind {A B} (m : Plot A) (f : A -> Plot B) : Plot B :=
  fun s => match m s with
           | (Returns a, s') => f a s'
           | (Raises e, s') => (Raises e, s')
           end.

Declare Scope plot_scope.
Notation "x <- m ;; f" := (bind m (fun x => f))
  (at level 61, m at next level, right associativity) : plot_scope.
Notation "m ;;; f" := (bind m (fun _ => f))
  (at level 61, right associativity) : plot_scope.
Local Open Scope plot_scope.

Fixpoint for_each {A} (l : list A) (f : A -> Plot unit) : Plot unit :=
  match l with
  | [] => pure tt
  | x :: xs => f x ;;; for_each xs f
  end.

(** [try: body / except IndexError: handler]. *)
Definition try_except_IndexError (body handler : Plot unit) : Plot unit :=
  fun s => match body s with
           | (Raises IndexError, s') => handler s'
           | r => r
           end.

(** [features[t]]. *)
Definition item (features : list string) (t : nat) : Outcome string :=
  match nth_error features t with
  | Some feat => Returns feat
  | None => Raises IndexError
  end.

(** [values[feat]] on a frame given by its named columns. *)
Definition column (values : list (string * list Z)) (feat : string)
  : Outcome (list Z) :=
  match find (fun c => String.eqb (fst c) feat) values with
  | Some c => Returns (snd c)
  | None => Raises (KeyError feat)
  end.

(** [axes[irow][icol]]: an axes object cannot be indexed. *)
Definition axes_item (axes : AxesArray) (irow icol : nat)
  : Outcome (nat * nat) :=
  match axes with
  | SingleAxes _ => Raises TypeError
  | Axes1D l =>
      match nth_error l irow with
      | Some _ => Raises TypeError
      | None => Raises IndexError
      end
  | Axes2D ll =>
      match nth_error ll irow with
      | Some row =>
          match nth_error row icol with
          | Some a => Returns a
          | None => Raises IndexError
          end
      | None => Raises IndexError
      end
  end.

(** [plt.subplots(nrows, ncols, ...)]. *)
Definition subplots (r c : nat) : Plot AxesArray :=
  if Nat.eqb r 0 || Nat.eqb c 0 then lift (Raises ValueError)
  else pure (squeeze r c).

(** [axis.scatter(xx, yy, ...)]: the two must have the same size. *)
Definition do_scatter (axis : nat * nat) (xx yy : list Z) : Plot unit :=
  if Nat.eqb (length xx) (length yy) then emit (scatter axis xx yy)
  else lift (Raises ValueError).

(** The try statement of the inner loop. *)
Definition plot_cell (axes : AxesArray) (features : list string)
    (values : list (string * list Z)) (yy : list Z) (irow icol : nat)
  : Plot unit :=
  try_except_IndexError
    (feat <- lift (item features (irow * ncols + icol)) ;;
     xx <- lift (column values feat) ;;
     a <- lift (axes_item axes irow icol) ;;
     do_scatter a xx yy ;;;
     a <- lift (axes_item axes irow icol) ;;
     emit (set_xlabel a feat) ;;;
     a <- lift (axes_item axes irow icol) ;;
     emit (hide_yticks a))
    (a <- lift (axes_item axes irow icol) ;;
     emit (delaxes a)).

(** The cell that plots every feature against the target. *)
Definition plot_features (features : list string)
    (values : list (string * list Z)) (yy : list Z) : Plot unit :=
  axes <- subplots (nrows features) ncols ;;
  for_each (seq 0 (nrows features)) (fun irow =>
    a <- lift (axes_item axes irow 0) ;;
    emit (set_ylabel a "target") ;;;
    for_each (seq 0 ncols) (fun icol =>
      plot_cell axes features values yy irow icol)).

(** The axes that got an x label, with the label; the scattered axes with
    their x data; the deleted axes; the axes that got a y label. *)
Definition labelled (evs : list Event) : list ((nat * nat) * string) :=
  flat_map (fun e => match e with
                     | set_xlabel a l => [(a, l)]
                     | _ => []
                     end) evs.

Definition scattered (evs : list Event) : list ((nat * nat) * list Z) :=
  flat_map (fun e => match e with
                     | scatter a xx _ => [(a, xx)]
                     | _ => []
                     end) evs.

Definition deleted (evs : list Event) : list (nat * nat) :=
  flat_map (fun e => match e with
                     | delaxes a => [a]
                     | _ => []
                     end) evs.

Definition ylabelled (evs : list Event) : list (nat * nat) :=
  flat_map (fun e => match e with
                     | set_ylabel a _ => [a]
                     | _ => []
                     end) evs.

(** The data of a column of [values], empty when there is none. *)
Definition column_data (values : list (string * list Z)) (feat : string)
  : list Z :=
  match column values feat with
  | Returns xx => xx
  | Raises _ => []
  end.

(** The events of one cell of the grid, [t] its index in reading order. *)
Definition cell_events (features : list string)
    (values : list (string * list Z)) (yy : list Z) (t : nat)
    (axis : nat * nat) : list Event :=
  match nth_error features t with
  | Some feat =>
      [scatter axis (column_data values feat) yy;
       set_xlabel axis feat; hide_yticks axis]
  | None => [delaxes axis]
  end.

(** The grid position of the cell of index [t]. *)
Definition place (t : nat) : nat * nat := (t / ncols, t mod ncols).

End Regression.

(** A small frame with the eight feature columns of the housing data. *)
Definition demo_housing : list (string * list Z) :=
  map (fun i => (("f" ++ Regression.str i)%string,
                 [Z.of_nat i; (Z.of_nat i + 1)%Z]))
    (seq 0 8).

(* ================================================================== *)
(** ** Column names *)

Lemma same_name_refl a : same_name a a = true.
Proof. unfold same_name. apply String.eqb_refl. Qed.

Lemma same_name_sym a b : same_name a b = same_name b a.
Proof. unfold same_name. apply String.eqb_sym. Qed.

Lemma same_name_trans a b c :
  same_name a b = true -> same_name b c = true -> same_name a c = true.
Proof. unfold same_name. rewrite !String.eqb_eq. congruence. Qed.

(** Names that are the same are the same as the same names. *)
Lemma same_name_subst a b c :
  same_name a b = true -> same_name a c = same_name b c.
Proof.
  unfold same_name. intros H. apply String.eqb_eq in H. now rewrite H.
Qed.

(** Evaluates the comparisons of names that are known. *)
Ltac names :=
  repeat match goal with
         | |- context [same_name ?a ?b] =>
             let v := eval vm_compute in (same_name a b) in
             match v with
             | true => change (same_name a b) with true
             | false => change (same_name a b) with false
             end
         end.

(* ================================================================== *)
(** ** Reasoning about [M] *)

Lemma bind_inv {A B} (m : M A) (f : A -> M B) w r w' :
  bind m f w = (r, w') ->
  (exists a w1, m w = (Ok a, w1) /\ f a w1 = (r, w')) \/
  (exists e, m w = (Raise e, w') /\ r = Raise e).
Proof.
  unfold bind. destruct (m w) as [[a | e] w1]; intros H.
  - left. now exists a, w1.
  - right. exists e. now inversion H.
Qed.

Lemma bind_Ok {A B} (m : M A) (f : A -> M B) w b w' :
  bind m f w = (Ok b, w') ->
  exists a w1, m w = (Ok a, w1) /\ f a w1 = (Ok b, w').
Proof.
  intros H. apply bind_inv in H as [H | [e [_ H]]]; [exact H | discriminate].
Qed.

Lemma liftR_inv {A} (x : Result A) w r w' :
  liftR x w = (r, w') -> r = x /\ w' = w.
Proof. unfold liftR. intros H. now inversion H. Qed.

Lemma mapM_liftR {A B} (g : A -> Result B) (l : list A) w :
  mapM (fun x => liftR (g x)) l w = (mapR g l, w).
Proof.
  revert w. induction l as [| x xs IH]; intros w; simpl; [reflexivity |].
  unfold bind, liftR at 1. destruct (g x) as [y | e]; [| reflexivity].
  rewrite IH. destruct (mapR g xs); reflexivity.
Qed.

Lemma mapR_Ok_Forall2 {A B} (g : A -> Result B) l ys :
  mapR g l = Ok ys -> Forall2 (fun x y => g x = Ok y) l ys.
Proof.
  revert ys. induction l as [| x xs IH]; simpl; intros ys H.
  - inversion H. constructor.
  - destruct (g x) as [y |] eqn:G; [| discriminate].
    destruct (mapR g xs) as [ys' |]; [| discriminate].
    inversion H; subst. constructor; auto.
Qed.

Lemma mapR_Ok_length {A B} (g : A -> Result B) l ys :
  mapR g l = Ok ys -> length ys = length l.
Proof.
  intros H. apply mapR_Ok_Forall2 in H.
  symmetry. eapply Forall2_length; eauto.
Qed.

Section Stable.

Variable R : World -> World -> Prop.
Hypothesis R_refl : forall w, R w w.
Hypothesis R_trans : forall w1 w2 w3, R w1 w2 -> R w2 w3 -> R w1 w3.

Lemma stable_liftR {A} (x : Result A) : stable R (liftR x).
Proof. intros w r w' H. apply liftR_inv in H as [_ ->]. apply R_refl. Qed.

Lemma stable_ret {A} (a : A) : stable R (ret a).
Proof. intros w r w' H. inversion H; subst. apply R_refl. Qed.

Lemma stable_bind {A B} (m : M A) (f : A -> M B) :
  stable R m -> (forall a, stable R (f a)) -> stable R (bind m f).
Proof.
  intros Hm Hf w r w' H.
  apply bind_inv in H as [(a & w1 & H1 & H2) | (e & H1 & _)].
  - eapply R_trans; [eapply Hm | eapply Hf]; eauto.
  - eapply Hm; eauto.
Qed.

Lemma stable_mapM {A B} (f : A -> M B) l :
  (forall x, stable R (f x)) -> stable R (mapM f l).
Proof.
  intros Hf. induction l as [| x xs IH]; simpl.
  - apply stable_ret.
  - apply stable_bind; [apply Hf |]. intros y.
    apply stable_bind; [apply IH |]. intros ys. apply stable_ret.
Qed.

Lemma stable_foldM {A B} (f : A -> B -> M A) l :
  (forall a x, stable R (f a x)) -> forall a, stable R (foldM f a l).
Proof.
  intros Hf. induction l as [| x xs IH]; intros a; simpl.
  - apply stable_ret.
  - apply stable_bind; [apply Hf | apply IH].
Qed.

End Stable.

Lemma same_resources_refl w : same_resources w w.
Proof. repeat split. Qed.

Lemma same_resources_trans w1 w2 w3 :
  same_resources w1 w2 -> same_resources w2 w3 -> same_resources w1 w3.
Proof.
  unfold same_resources. intros (a & b & c & d) (a' & b' & c' & d').
  repeat split; congruence.
Qed.

Lemma framed_liftR {A} (x : Result A) : framed (liftR x).
Proof. apply stable_liftR, same_resources_refl. Qed.

Lemma framed_ret {A} (a : A) : framed (ret a).
Proof. apply stable_ret, same_resources_refl. Qed.

Lemma framed_bind {A B} (m : M A) (f : A -> M B) :
  framed m -> (forall a, framed (f a)) -> framed (bind m f).
Proof. apply stable_bind, same_resources_trans. Qed.

Lemma framed_mapM {A B} (f : A -> M B) l :
  (forall x, framed (f x)) -> framed (mapM f l).
Proof.
  apply stable_mapM; [apply same_resources_refl | apply same_resources_trans].
Qed.

Lemma framed_foldM {A B} (f : A -> B -> M A) l :
  (forall a x, framed (f a x)) -> forall a, framed (foldM f a l).
Proof.
  apply stable_foldM; [apply same_resources_refl | apply same_resources_trans].
Qed.

Lemma framed_get_index field : framed (get_index field).
Proof.
  intros w r w' H. unfold get_index in H.
  apply liftR_inv in H as [_ ->]. apply same_resources_refl.
Qed.

Lemma framed_log_request r : framed (log_request r).
Proof. intros w x w' H. inversion H; subst. repeat split. Qed.

Create HintDb frame.
#[local] Hint Resolve framed_liftR framed_ret framed_bind framed_mapM
  framed_foldM framed_get_index framed_log_request : frame.

Lemma framed_getNeighbor cknn tree c : framed (getNeighbor cknn tree c).
Proof.
  unfold getNeighbor.
  destruct c as [[| | v | |] [| | | l |]]; unfold raise;
    try (apply (framed_liftR (Raise UDFException))).
  auto with frame.
Qed.

Lemma framed_col name df : framed (col name df).
Proof. unfold col, lift. auto with frame. Qed.

#[local] Hint Resolve framed_getNeighbor framed_col : frame.

Lemma framed_transform cknn df : framed (transform cknn df).
Proof. unfold transform. auto 10 with frame. Qed.

#[local] Hint Resolve framed_transform : frame.

Lemma framed_add_matches classes cknn df :
  framed (add_matches classes cknn df).
Proof.
  unfold add_matches. apply framed_foldM.
  intros a x. unfold add_matches_step. auto with frame.
Qed.

(* ================================================================== *)
(** ** Columns kept by the DataFrame operations *)

Lemma set_column_nrows name cells df :
  nrows (set_column name cells df) = nrows df.
Proof. unfold set_column. destruct (has_column name df); reflexivity. Qed.

Lemma set_column_keeps name cells df p c :
  nth_error (cols df) p = Some c -> same_name (fst c) name = false ->
  nth_error (cols (set_column name cells df)) p = Some c.
Proof.
  intros Hp Hn. unfold set_column. destruct (has_column name df); simpl.
  - rewrite nth_error_map, Hp. simpl. now rewrite Hn.
  - rewrite nth_error_app1; [exact Hp |].
    apply nth_error_Some. congruence.
Qed.

(** A column of that name, whatever its case, is replaced where it is. *)
Lemma set_column_replaces name cells df p c :
  nth_error (cols df) p = Some c -> same_name (fst c) name = true ->
  nth_error (cols (set_column name cells df)) p = Some (name, cells).
Proof.
  intros Hp Hn. unfold set_column, has_column.
  assert (E : existsb (fun c => same_name (fst c) name) (cols df) = true).
  { apply existsb_exists. exists c. split; [| exact Hn].
    eapply nth_error_In; eauto. }
  rewrite E. simpl. rewrite nth_error_map, Hp. simpl. now rewrite Hn.
Qed.

Lemma withColumnRenamed_keeps existing new df p c :
  nth_error (cols df) p = Some c -> same_name (fst c) existing = false ->
  nth_error (cols (withColumnRenamed existing new df)) p = Some c.
Proof.
  intros Hp Hn. unfold withColumnRenamed. simpl.
  rewrite nth_error_map, Hp. simpl. now rewrite Hn.
Qed.

Lemma transform_Ok cknn df w out w' :
  transform cknn df w = (Ok out, w') ->
  exists cells, out = set_column (outputCol cknn) cells df.
Proof.
  unfold transform. intros H.
  apply bind_Ok in H as (feats & w1 & _ & H).
  apply bind_Ok in H as (conds & w2 & _ & H).
  apply bind_Ok in H as (tree & w3 & _ & H).
  apply bind_Ok in H as (cells & w4 & _ & H).
  exists cells. now inversion H.
Qed.

Lemma add_matches_step_Ok cknn df l w out w' :
  add_matches_step cknn df l w = (Ok out, w') ->
  exists cells,
    out = withColumnRenamed "Matches" (matches_col l)
            (set_column (outputCol cknn) cells
               (withColumn "conditioner" (array_lit [l]) df)).
Proof.
  unfold add_matches_step. intros H.
  apply bind_Ok in H as (r & w1 & H1 & H).
  apply transform_Ok in H1 as [cells ->].
  exists cells. now inversion H.
Qed.

Lemma add_matches_step_keeps cknn df l w out w' :
  outputCol cknn = "Matches" ->
  add_matches_step cknn df l w = (Ok out, w') ->
  nrows out = nrows df /\
  forall p c, nth_error (cols df) p = Some c ->
              same_name (fst c) "conditioner" = false ->
              same_name (fst c) "Matches" = false ->
              nth_error (cols out) p = Some c.
Proof.
  intros Hout H. apply add_matches_step_Ok in H as [cells ->]. split.
  - simpl. unfold withColumn. now rewrite !set_column_nrows.
  - intros p c Hp Hc Hm.
    apply withColumnRenamed_keeps; [| exact Hm].
    apply set_column_keeps; [| now rewrite Hout].
    unfold withColumn. now apply set_column_keeps.
Qed.

Lemma add_matches_keeps classes cknn : forall df w out w',
  outputCol cknn = "Matches" ->
  add_matches classes cknn df w = (Ok out, w') ->
  nrows out = nrows df /\
  forall p c, nth_error (cols df) p = Some c ->
              same_name (fst c) "conditioner" = false ->
              same_name (fst c) "Matches" = false ->
              nth_error (cols out) p = Some c.
Proof.
  unfold add_matches.
  induction classes as [| l rest IH]; intros df w out w' Hout H; simpl in H.
  - inversion H; subst. auto.
  - apply bind_Ok in H as (df1 & w1 & Hstep & H).
    apply (add_matches_step_keeps _ _ _ _ _ _ Hout) in Hstep as [Hn Hk].
    apply (IH _ _ _ _ Hout) in H as [Hn' Hk']. split; [congruence |].
    intros p c Hp Hc Hm. apply Hk'; auto.
Qed.

(* ================================================================== *)
(** ** Results that depend on the world through its indexes only *)

Lemma respects_liftR {A} (x : Result A) : respects (liftR x).
Proof. intros w1 w2 H. simpl. auto. Qed.

Lemma respects_ret {A} (a : A) : respects (ret a).
Proof. intros w1 w2 H. simpl. auto. Qed.

Lemma respects_bind {A B} (m : M A) (f : A -> M B) :
  respects m -> (forall a, respects (f a)) -> respects (bind m f).
Proof.
  intros Hm Hf w1 w2 H. unfold bind.
  destruct (Hm w1 w2 H) as [E I].
  destruct (m w1) as [[a1 | e1] w1'], (m w2) as [[a2 | e2] w2'];
    simpl in *; try discriminate; inversion E; subst; auto.
  now apply Hf.
Qed.

Lemma respects_mapM {A B} (f : A -> M B) l :
  (forall x, respects (f x)) -> respects (mapM f l).
Proof.
  intros Hf. induction l as [| x xs IH]; simpl.
  - apply respects_ret.
  - apply respects_bind; [apply Hf |]. intros y.
    apply respects_bind; [apply IH |]. intros ys. apply respects_ret.
Qed.

Lemma respects_foldM {A B} (f : A -> B -> M A) l :
  (forall a x, respects (f a x)) -> forall a, respects (foldM f a l).
Proof.
  intros Hf. induction l as [| x xs IH]; intros a; simpl.
  - apply respects_ret.
  - apply respects_bind; [apply Hf | apply IH].
Qed.

Lemma respects_get_index field : respects (get_index field).
Proof.
  intros w1 w2 H. unfold get_index, lookup_index, lift, liftR. simpl.
  now rewrite H.
Qed.

Lemma respects_log_request r : respects (log_request r).
Proof. intros w1 w2 H. simpl. auto. Qed.

Lemma respects_getNeighbor cknn tree c : respects (getNeighbor cknn tree c).
Proof.
  unfold getNeighbor.
  destruct c as [[| | v | |] [| | | l |]];
    try (apply (respects_liftR (Raise UDFException))).
  apply respects_bind; [apply respects_log_request |].
  intros _. apply respects_ret.
Qed.

Lemma respects_transform cknn df : respects (transform cknn df).
Proof.
  unfold transform, col, lift.
  apply respects_bind; [apply respects_liftR | intros feats].
  apply respects_bind; [apply respects_liftR | intros conds].
  apply respects_bind; [apply respects_get_index | intros tree].
  apply respects_bind; [| intros cells; apply respects_ret].
  apply respects_mapM. intros c. apply respects_getNeighbor.
Qed.

Lemma respects_add_matches classes cknn df :
  respects (add_matches classes cknn df).
Proof.
  unfold add_matches. apply respects_foldM. intros a l.
  unfold add_matches_step.
  apply respects_bind; [apply respects_transform |].
  intros r. apply respects_ret.
Qed.

(* ================================================================== *)
(** ** The orchestrator on a seeded table *)

Lemma absent_app name l1 l2 :
  absent name (l1 ++ l2) <-> absent name l1 /\ absent name l2.
Proof. unfold absent. rewrite existsb_app. apply orb_false_iff. Qed.

Lemma absent_filter name l :
  absent name l -> filter (fun c => same_name (fst c) name) l = [].
Proof.
  unfold absent. induction l as [| c l IH]; simpl; [reflexivity |].
  intros H. apply orb_false_iff in H as [H1 H2]. rewrite H1. auto.
Qed.

Lemma absent_map name (g : string * list Value -> string * list Value) l :
  absent name l ->
  map (fun c => if same_name (fst c) name then g c else c) l = l.
Proof.
  unfold absent. induction l as [| c l IH]; simpl; [reflexivity |].
  intros H. apply orb_false_iff in H as [H1 H2]. rewrite H1. f_equal. auto.
Qed.

Lemma add_requests_nil w : add_requests [] w = w.
Proof. destruct w. unfold add_requests. simpl. now rewrite app_nil_r. Qed.

Lemma add_requests_app r1 r2 w :
  add_requests r2 (add_requests r1 w) = add_requests (r1 ++ r2) w.
Proof. unfold add_requests. simpl. now rewrite app_assoc. Qed.

Lemma fold_left_last {A B} (f : B -> A) (l : list B) (x : B) (d : B) :
  fold_left (fun _ y => f y) l (f x) = f (last (x :: l) d).
Proof.
  revert x. induction l as [| y l IH]; intros x; [reflexivity |].
  simpl fold_left. rewrite IH. reflexivity.
Qed.

Lemma absent_of_filter name l :
  filter (fun c : string * list Value => same_name (fst c) name) l = [] ->
  absent name l.
Proof.
  unfold absent. induction l as [| c l IH]; simpl; [reflexivity |].
  destruct (same_name (fst c) name); [discriminate |]. exact IH.
Qed.

(** A column that occurs exactly once splits the schema around it. *)
Lemma unique_column name (l : list (string * list Value)) :
  existsb (fun c => same_name (fst c) name) l = true ->
  length (filter (fun c => same_name (fst c) name) l) <= 1 ->
  exists pre name' c post,
    l = pre ++ (name', c) :: post /\ same_name name' name = true /\
    absent name pre /\ absent name post.
Proof.
  induction l as [| x l IH]; simpl; [discriminate |].
  destruct (same_name (fst x) name) eqn:E; simpl; intros Hex Hlen.
  - destruct x as [x1 x2]. simpl in E.
    exists [], x1, x2, l. repeat split; [exact E |].
    apply absent_of_filter.
    destruct (filter (fun c => same_name (fst c) name) l);
      [reflexivity | simpl in Hlen; lia].
  - destruct (IH Hex Hlen) as (pre & name' & c & post & -> & Hn & Hpre & Hpost).
    exists (x :: pre), name', c, post. repeat split; [exact Hn | | exact Hpost].
    unfold absent. simpl. rewrite E. exact Hpre.
Qed.

(** A column named as another is a column of no other name. *)
Lemma same_name_other a b c :
  same_name a b = true -> same_name b c = false -> same_name a c = false.
Proof. intros H1 H2. now rewrite (same_name_subst _ _ _ H1). Qed.

Section Ready.

Variable cknn : ConditionalKNNModel.
Variable tree : BallTree.
Variable n : nat.
Variables pre post : list (string * list Value).
Variable vs : list (list Z).

Hypothesis Hout : outputCol cknn = "Matches".
Hypothesis Hfeat : featuresCol cknn = "Norm_Features".
Hypothesis Hcpre : absent "conditioner" pre.
Hypothesis Hcpost : absent "conditioner" post.
Hypothesis Hmpre : absent "Matches" pre.
Hypothesis Hmpost : absent "Matches" post.
Hypothesis Hvs : resolve "Norm_Features" (mkDataFrame n (pre ++ post))
                 = Some (map VVector vs).
Hypothesis Hlen : length vs = n.

Lemma mapM_getNeighbor l : forall (us : list (list Z)) w,
  mapM (getNeighbor cknn tree)
       (combine (map VVector us) (repeat (VArray [l]) (length us))) w
  = (Ok (map (fun v => VMatches (query tree v [l] (k cknn))) us),
     add_requests (map (fun v => mkRequest (labelCol cknn) v [l] (k cknn)) us)
       w).
Proof.
  induction us as [| u us IH]; intros w; simpl.
  - unfold ret. now rewrite add_requests_nil.
  - unfold bind at 1. unfold bind at 1. simpl. unfold bind at 1.
    rewrite IH. simpl. unfold ret. f_equal.
    unfold add_requests. simpl. now rewrite <- app_assoc.
Qed.

Lemma transform_tbl l ms w :
  inert ms -> lookup_index (labelCol cknn) w = Some tree ->
  transform cknn (tbl n pre post (repeat (VArray [l]) n) ms) w
  = (Ok (mkDataFrame n
           (pre ++ ("conditioner", repeat (VArray [l]) n)
                :: post ++ ms ++ [("Matches", match_cells cknn tree vs l)])),
     add_requests (match_requests cknn vs l) w).
Proof.
  intros (Hc & Hm & Hf) Hidx.
  unfold transform, col, resolve, tbl, conditionerCol. simpl.
  rewrite Hfeat, !filter_app. simpl. rewrite !filter_app.
  rewrite (absent_filter _ _ Hf), (absent_filter _ _ Hcpre),
    (absent_filter _ _ Hcpost), (absent_filter _ _ Hc), app_nil_r.
  unfold resolve in Hvs. simpl in Hvs. rewrite filter_app in Hvs.
  destruct (filter (fun c => same_name (fst c) "Norm_Features") pre
            ++ filter (fun c => same_name (fst c) "Norm_Features") post)
    as [| c0 [| c1 rest]]; try discriminate.
  inversion Hvs as [Hc0]. simpl.
  unfold bind at 1. unfold lift at 1, liftR at 1.
  unfold bind at 1. unfold lift at 1, liftR at 1.
  unfold bind at 1. unfold get_index at 1, lift at 1, liftR at 1.
  rewrite Hidx. unfold bind at 1. unfold of_option.
  rewrite <- Hlen at 1. rewrite Hc0, mapM_getNeighbor.
  unfold ret. f_equal. f_equal.
  unfold set_column, has_column. simpl. rewrite Hout.
  assert (E : existsb (fun c => same_name (fst c) "Matches")
                (pre ++ ("conditioner", repeat (VArray [l]) n) :: post ++ ms)
              = false).
  { apply absent_app. split; [exact Hmpre |]. unfold absent. simpl.
    apply absent_app. split; assumption. }
  rewrite E. rewrite <- app_assoc. simpl. rewrite <- app_assoc. reflexivity.
Qed.

Lemma rename_tbl c l ms cells :
  absent "Matches" ms ->
  withColumnRenamed "Matches" (matches_col l)
    (mkDataFrame n
       (pre ++ ("conditioner", c) :: post ++ ms ++ [("Matches", cells)]))
  = tbl n pre post c (ms ++ [(matches_col l, cells)]).
Proof.
  intros Hm. unfold withColumnRenamed, tbl. simpl. f_equal.
  rewrite map_app. simpl. rewrite !map_app. simpl.
  rewrite (absent_map _ _ _ Hmpre), (absent_map _ _ _ Hmpost),
    (absent_map _ _ _ Hm). reflexivity.
Qed.

Lemma inert_snoc ms l cells :
  inert ms -> inert (ms ++ [(matches_col l, cells)]).
Proof.
  intros (Hc & Hm & Hf).
  repeat split; apply absent_app; (split; [assumption | reflexivity]).
Qed.

(** One iteration of the loop on a table that has its conditioner column. *)
Lemma step_tbl c ms l w :
  inert ms -> lookup_index (labelCol cknn) w = Some tree ->
  add_matches_step cknn (tbl n pre post c ms) l w
  = (Ok (tbl n pre post (repeat (VArray [l]) n)
           (ms ++ [(matches_col l, match_cells cknn tree vs l)])),
     add_requests (match_requests cknn vs l) w).
Proof.
  intros Hin Hidx. pose proof Hin as (Hc & Hm & Hf).
  unfold add_matches_step, withColumn, set_column, has_column.
  assert (E : existsb (fun c => same_name (fst c) "conditioner")
                (cols (tbl n pre post c ms)) = true).
  { unfold tbl. simpl. rewrite existsb_app. simpl. apply orb_true_r. }
  rewrite E. unfold array_lit. simpl.
  rewrite map_app. simpl. rewrite map_app.
  rewrite (absent_map _ _ _ Hcpre), (absent_map _ _ _ Hcpost),
    (absent_map _ _ _ Hc).
  unfold bind.
  change (mkDataFrame n
            (pre ++ ("conditioner", repeat (VArray [l]) n) :: post ++ ms))
    with (tbl n pre post (repeat (VArray [l]) n) ms).
  rewrite transform_tbl; [| exact Hin | exact Hidx].
  unfold ret. f_equal. f_equal. now apply rename_tbl.
Qed.

Lemma add_matches_tbl classes : forall c ms w,
  inert ms -> lookup_index (labelCol cknn) w = Some tree ->
  add_matches classes cknn (tbl n pre post c ms) w
  = (Ok (tbl n pre post
           (fold_left (fun _ l => repeat (VArray [l]) n) classes c)
           (ms ++ map (fun l => (matches_col l, match_cells cknn tree vs l))
                    classes)),
     add_requests (flat_map (match_requests cknn vs) classes) w).
Proof.
  unfold add_matches.
  induction classes as [| l rest IH]; intros c ms w Hin Hidx; simpl.
  - unfold ret. now rewrite app_nil_r, add_requests_nil.
  - unfold bind. rewrite step_tbl by assumption.
    rewrite IH; [| now apply inert_snoc | exact Hidx].
    rewrite add_requests_app, <- app_assoc. reflexivity.
Qed.

End Ready.

(** The first iteration on a table without a conditioner column appends
    one. *)
Lemma conditioned_fresh l n base :
  absent "conditioner" base ->
  conditioned l (mkDataFrame n base)
  = tbl n base [] (repeat (VArray [l]) n) [].
Proof.
  intros H. unfold conditioned, withColumn, set_column, has_column, tbl.
  simpl. unfold absent in H. rewrite H. reflexivity.
Qed.

(** A conditioner column, whatever the case of its name, is replaced where
    it is by the column "conditioner". *)
Lemma conditioned_tbl l n pre name post c :
  same_name name "conditioner" = true ->
  absent "conditioner" pre -> absent "conditioner" post ->
  conditioned l (mkDataFrame n (pre ++ (name, c) :: post))
  = tbl n pre post (repeat (VArray [l]) n) [].
Proof.
  intros Hn Hpre Hpost.
  unfold conditioned, withColumn, set_column, has_column, tbl, array_lit.
  cbn [cols nrows].
  rewrite existsb_app. cbn [existsb fst]. rewrite Hn. cbn [orb].
  rewrite orb_true_r, map_app. cbn [map fst]. rewrite Hn.
  rewrite (absent_map _ _ _ Hpre), (absent_map _ _ _ Hpost), app_nil_r.
  reflexivity.
Qed.

(** An iteration of the loop sees its table through the conditioner column
    it sets. *)
Lemma add_matches_step_conditioned cknn df df' l w :
  conditioned l df = conditioned l df' ->
  add_matches_step cknn df l w = add_matches_step cknn df' l w.
Proof. unfold add_matches_step, conditioned. now intros ->. Qed.

Lemma step_fresh cknn tree n base vs l w :
  outputCol cknn = "Matches" -> featuresCol cknn = "Norm_Features" ->
  absent "conditioner" base -> absent "Matches" base ->
  resolve "Norm_Features" (mkDataFrame n base) = Some (map VVector vs) ->
  length vs = n ->
  lookup_index (labelCol cknn) w = Some tree ->
  add_matches_step cknn (mkDataFrame n base) l w
  = (Ok (tbl n base [] (repeat (VArray [l]) n)
           [(matches_col l, match_cells cknn tree vs l)]),
     add_requests (match_requests cknn vs l) w).
Proof.
  intros Hout Hfeat Hc Hm Hvs Hlen Hidx.
  assert (Hvs' : resolve "Norm_Features" (mkDataFrame n (base ++ []))
                 = Some (map VVector vs)) by now rewrite app_nil_r.
  unfold add_matches_step.
  change (withColumn "conditioner" (array_lit [l]) (mkDataFrame n base))
    with (conditioned l (mkDataFrame n base)).
  rewrite conditioned_fresh by exact Hc. unfold bind.
  rewrite (transform_tbl cknn tree n base [] vs Hout Hfeat Hc eq_refl Hm
             eq_refl Hvs' Hlen l [] w); [| repeat split | exact Hidx].
  unfold ret.
  rewrite (rename_tbl n base [] Hm eq_refl _ l []) by reflexivity.
  reflexivity.
Qed.

(** On a ready table, an orchestration over a non-empty sequence sets the
    conditioner column to the last condition, appends one match column per
    condition and issues the requests of every condition for every row, in
    order. *)
Lemma add_matches_on_ready classes cknn df w tree vs :
  ready cknn df w tree vs -> classes <> [] ->
  add_matches classes cknn df w
  = (Ok (mkDataFrame (nrows df)
           (cols (conditioned (last classes "") df)
            ++ map (fun l => (matches_col l, match_cells cknn tree vs l))
                 classes)),
     add_requests (flat_map (match_requests cknn vs) classes) w).
Proof.
  intros (Hout & Hfeat & Hm & Hone & Hvs & Hlen & Hidx) Hne.
  destruct classes as [| l rest]; [congruence |].
  destruct df as [n cs]. simpl in Hm, Hone, Hlen. simpl nrows.
  assert (Hlast : fold_left (fun _ y => repeat (VArray [y]) n) rest
                    (repeat (VArray [l]) n)
                  = repeat (VArray [last (l :: rest) ""]) n)
    by apply (fold_left_last (fun y => repeat (VArray [y]) n) rest l "").
  destruct (existsb (fun c => same_name (fst c) "conditioner") cs) eqn:Hc.
  - destruct (unique_column _ _ Hc Hone)
      as (pre & name & c0 & post & -> & Hname & Hpre & Hpost).
    unfold has_column in Hm. cbn [cols] in Hm.
    apply absent_app in Hm as [Hmpre Hmpost].
    unfold absent in Hmpost. cbn [existsb fst] in Hmpost.
    apply orb_false_iff in Hmpost as [_ Hmpost].
    assert (Hvs' : resolve "Norm_Features" (mkDataFrame n (pre ++ post))
                   = Some (map VVector vs)).
    { unfold resolve in *. cbn [cols] in *. rewrite filter_app in *.
      cbn [filter fst] in Hvs.
      rewrite (same_name_other name "conditioner" "Norm_Features" Hname
                 eq_refl) in Hvs.
      exact Hvs. }
    rewrite conditioned_tbl by assumption.
    assert (Hfirst : add_matches (l :: rest) cknn
                       (mkDataFrame n (pre ++ (name, c0) :: post)) w
                     = add_matches (l :: rest) cknn (tbl n pre post c0 []) w).
    { unfold add_matches. cbn [foldM]. unfold bind.
      rewrite (add_matches_step_conditioned cknn _ (tbl n pre post c0 []));
        [reflexivity |].
      unfold tbl. rewrite app_nil_r.
      rewrite !conditioned_tbl by (assumption || reflexivity). reflexivity. }
    rewrite Hfirst.
    rewrite (add_matches_tbl cknn tree n pre post vs Hout Hfeat Hpre Hpost
               Hmpre Hmpost Hvs' Hlen (l :: rest) c0 [] w);
      [| repeat split | exact Hidx].
    cbn [fold_left]. rewrite Hlast. unfold tbl. cbn [cols].
    do 3 f_equal. rewrite app_nil_r, <- app_assoc. reflexivity.
  - assert (Hvs' : resolve "Norm_Features" (mkDataFrame n (cs ++ []))
                   = Some (map VVector vs)) by now rewrite app_nil_r.
    unfold add_matches. cbn [foldM]. unfold bind at 1.
    rewrite (step_fresh cknn tree n cs vs l w Hout Hfeat Hc Hm Hvs Hlen Hidx).
    change (foldM (add_matches_step cknn)
              (tbl n cs [] (repeat (VArray [l]) n)
                 [(matches_col l, match_cells cknn tree vs l)]) rest)
      with (add_matches rest cknn
              (tbl n cs [] (repeat (VArray [l]) n)
                 [(matches_col l, match_cells cknn tree vs l)])).
    rewrite (add_matches_tbl cknn tree n cs [] vs Hout Hfeat Hc eq_refl Hm
               eq_refl Hvs' Hlen rest);
      [| apply (inert_snoc [] l); repeat split | exact Hidx].
    rewrite add_requests_app, Hlast.
    rewrite conditioned_fresh by exact Hc. unfold tbl. cbn [cols].
    do 3 f_equal. rewrite <- app_assoc. reflexivity.
Qed.

(** The match columns are the last columns of the result. *)
Lemma nth_error_match_column {A B} (f : A -> B) front classes i l :
  nth_error classes i = Some l ->
  nth_error (front ++ map f classes)
    (length (front ++ map f classes) - length classes + i)
  = Some (f l).
Proof.
  intros H. rewrite length_app, length_map.
  replace (length front + length classes - length classes + i)
    with (length front + i) by lia.
  rewrite nth_error_app2 by lia.
  replace (length front + i - length front) with i by lia.
  now rewrite nth_error_map, H.
Qed.

Lemma query_no_match tree q l k0 :
  existsb (fun e => String.eqb (label e) l) tree = false ->
  query tree q [l] k0 = [].
Proof.
  intros H. unfold query.
  replace (filter (fun e => existsb (String.eqb (label e)) [l]) tree)
    with (@nil Entry).
  - simpl. now destruct k0.
  - symmetry. induction tree as [| e t IH]; simpl in *; [reflexivity |].
    apply orb_false_iff in H as [H1 H2]. rewrite H1. simpl. auto.
Qed.

Lemma query_length tree q conditioner k0 :
  length (query tree q conditioner k0) <= k0.
Proof. unfold query. apply firstn_le_length. Qed.

(** Fitting returns a model with the estimator's parameters, among them
    the result count, and binds an index for its label field. *)
Lemma fit_keeps_params est df w cknn w' :
  fit est df w = (Ok cknn, w') ->
  cknn = est /\ exists tree, lookup_index (labelCol cknn) w' = Some tree.
Proof.
  unfold fit. intros H.
  apply bind_Ok in H as (feats & w1 & _ & H).
  apply bind_Ok in H as (labels & w2 & _ & H).
  apply bind_Ok in H as (vals & w3 & _ & H).
  apply bind_Ok in H as (tree & w4 & _ & H).
  apply bind_Ok in H as (u & w5 & Hb & H).
  inversion H; subst. split; [reflexivity |].
  exists tree. unfold bind_index in Hb. inversion Hb; subst.
  unfold lookup_index. simpl. now rewrite String.eqb_refl.
Qed.

(** The models of the notebook request the default number of matches. *)
Lemma notebook_models_use_default_k small_df w cknn w' :
  medium_cknn small_df w = (Ok cknn, w') \/
  culture_cknn small_df w = (Ok cknn, w') ->
  k cknn = default_k.
Proof.
  unfold medium_cknn, culture_cknn.
  intros [H | H]; apply fit_keeps_params in H as [-> _]; reflexivity.
Qed.

(* ================================================================== *)
(** ** The presenter *)

Lemma forM_app {A} (f : A -> M unit) l1 l2 w :
  forM_ (l1 ++ l2) f w = (forM_ l1 f ;;; forM_ l2 f) w.
Proof.
  revert w. induction l1 as [| x l1 IH]; intros w; simpl.
  - reflexivity.
  - unfold bind. destruct (f x w) as [[[] | e] w1]; [| reflexivity].
    rewrite IH. reflexivity.
Qed.

Lemma forM_map {A B} (h : A -> B) (f : B -> M unit) l w :
  forM_ (map h l) f w = forM_ l (fun x => f (h x)) w.
Proof.
  revert w. induction l as [| x l IH]; intros w; simpl; [reflexivity |].
  unfold bind. destruct (f (h x) w) as [[[] | e] w1]; auto.
Qed.

Lemma forM_nested (f : nat -> nat -> M unit) ny l w :
  forM_ l (fun i => forM_ (seq 0 ny) (f i)) w
  = forM_ (flat_map (fun i => map (pair i) (seq 0 ny)) l)
      (fun p => f (fst p) (snd p)) w.
Proof.
  revert w. induction l as [| i l IH]; intros w; simpl; [reflexivity |].
  rewrite forM_app. unfold bind. rewrite forM_map. simpl.
  destruct (forM_ (seq 0 ny) (fun x => f i x) w) as [[[] | e] w1]; auto.
Qed.

Lemma in_positions nx ny i j :
  In (i, j) (positions nx ny) <-> i < nx /\ j < ny.
Proof.
  unfold positions. rewrite in_flat_map. split.
  - intros (x & Hx & H). apply in_map_iff in H as (y & E & Hy).
    inversion E; subst. apply in_seq in Hx, Hy. lia.
  - intros [Hi Hj]. exists i. split; [apply in_seq; lia |].
    apply in_map. apply in_seq. lia.
Qed.

Lemma positions_length nx ny : length (positions nx ny) = nx * ny.
Proof.
  unfold positions. generalize (seq 0 nx) (length_seq nx 0).
  intros l. revert nx. induction l as [| i l IH]; intros nx H; simpl in *.
  - subst. reflexivity.
  - destruct nx as [| nx]; [discriminate |].
    rewrite length_app, length_map, length_seq, (IH nx) by congruence.
    reflexivity.
Qed.

Lemma Forall2_In_l {A B} (R : A -> B -> Prop) l l' x :
  Forall2 R l l' -> In x l -> exists y, In y l' /\ R x y.
Proof.
  induction 1 as [| a b l l' Hab _ IH]; simpl; [tauto |].
  intros [<- | H]; [exists b; auto |].
  destruct (IH H) as (y & Hy & Hr). exists y; auto.
Qed.

Lemma Forall2_In_r {A B} (R : A -> B -> Prop) l l' y :
  Forall2 R l l' -> In y l' -> exists x, In x l /\ R x y.
Proof.
  induction 1 as [| a b l l' Hab _ IH]; simpl; [tauto |].
  intros [<- | H]; [exists a; auto |].
  destruct (IH H) as (x & Hx & Hr). exists x; auto.
Qed.

Lemma mapR_Raise_In {A B} (g : A -> Result B) l e :
  mapR g l = Raise e -> exists x, In x l /\ g x = Raise e.
Proof.
  induction l as [| x xs IH]; simpl; [discriminate |].
  destruct (g x) as [y | e'] eqn:G.
  - destruct (mapR g xs) as [ys | e'']; [discriminate |].
    intros H. inversion H; subst.
    destruct (IH eq_refl) as (x' & Hin & Hx'). exists x'; auto.
  - intros H. inversion H; subst. exists x; auto.
Qed.

Lemma add_axes_nil w : add_axes [] w = w.
Proof.
  destruct w as [s i r [[a b c] |] f fs]; unfold add_axes; simpl;
    [now rewrite app_nil_r | reflexivity].
Qed.

Lemma add_axes_app a1 a2 w :
  add_axes a2 (add_axes a1 w) = add_axes (a1 ++ a2) w.
Proof.
  unfold add_axes. simpl. destruct (canvas w); simpl; [| reflexivity].
  now rewrite app_assoc.
Qed.

Lemma add_axes_canvas axs w f :
  canvas w = Some f ->
  canvas (add_axes axs w)
  = Some (mkFigure (fig_nrows f) (fig_ncols f) (fig_axes f ++ axs)).
Proof. intros H. simpl. now rewrite H. Qed.

Lemma nth_error_seq_lt a n i : i < n -> nth_error (seq a n) i = Some (a + i).
Proof.
  revert a i. induction n as [| n IH]; intros a i H; [lia |].
  destruct i as [| i]; simpl; [f_equal; lia |].
  rewrite IH by lia. f_equal. lia.
Qed.

Lemma axes_lookup ny nx axes i j a :
  reshape_row (squeeze ny nx) = Ok axes ->
  i < nx -> j < ny -> nth_error2 axes j i = Some a -> a = (j, i).
Proof.
  unfold squeeze, nth_error2.
  destruct (Nat.eqb ny 1) eqn:Ey, (Nat.eqb nx 1) eqn:Ex; simpl;
    intros H Hi Hj Ha; try discriminate; inversion H; subst; clear H.
  - apply Nat.eqb_eq in Ey. subst. assert (j = 0) by lia. subst. simpl in Ha.
    rewrite nth_error_map, nth_error_seq_lt in Ha by lia. now inversion Ha.
  - apply Nat.eqb_eq in Ex. subst. assert (i = 0) by lia. subst.
    destruct j as [| j]; simpl in Ha.
    + destruct ny as [| ny]; [lia |]. simpl in Ha. now inversion Ha.
    + destruct j; discriminate.
  - rewrite nth_error_map, nth_error_seq_lt in Ha by lia. simpl in Ha.
    rewrite nth_error_map, nth_error_seq_lt in Ha by lia. now inversion Ha.
Qed.

Lemma axes_total ny nx :
  2 <= nx -> 1 <= ny ->
  exists axes, reshape_row (squeeze ny nx) = Ok axes /\
    forall i j, i < nx -> j < ny -> nth_error2 axes j i = Some (j, i).
Proof.
  intros Hx Hy. unfold squeeze, nth_error2.
  assert (Ex : Nat.eqb nx 1 = false) by (apply Nat.eqb_neq; lia).
  rewrite Ex, andb_false_r.
  destruct (Nat.eqb ny 1) eqn:Ey; simpl; eexists; split; try reflexivity;
    intros i j Hi Hj.
  - apply Nat.eqb_eq in Ey. subst. assert (j = 0) by lia. subst. simpl.
    now rewrite nth_error_map, nth_error_seq_lt by lia.
  - rewrite nth_error_map, nth_error_seq_lt by lia. simpl.
    now rewrite nth_error_map, nth_error_seq_lt by lia.
Qed.

Section PresenterFacts.

Variable http_get : string -> option string.
Variable image_open : string -> option Image.

Lemma plot_cell_spec axes arr titles p w f :
  canvas w = Some f ->
  plot_cell http_get image_open axes arr titles (fst p) (snd p) w
  = match cell_draw http_get image_open axes arr titles p with
    | Ok ax => (Ok tt, add_axes [ax] w)
    | Raise e => (Raise e, w)
    end.
Proof.
  intros Hc. unfold plot_cell, cell_draw, getitem2, getitem, plot_img.
  unfold lift, liftR, of_option, bind, imshow, add_axes. rewrite Hc.
  destruct (nth_error2 axes (snd p) (fst p)) as [axis |]; [| now destruct (Nat.eqb (snd p) 0)].
  destruct (nth_error2 (data arr) (fst p) (snd p)) as [url |]; [| now destruct (Nat.eqb (snd p) 0)].
  destruct (Nat.eqb (snd p) 0).
  - destruct (nth_error titles (fst p)); [| reflexivity].
    destruct (fetch http_get image_open url); rewrite ?Hc; reflexivity.
  - destruct (fetch http_get image_open url); rewrite ?Hc; reflexivity.
Qed.

Lemma draw_loop axes arr titles ps : forall w f,
  canvas w = Some f ->
  exists axs,
    forM_ ps (fun p => plot_cell http_get image_open axes arr titles
                         (fst p) (snd p)) w
    = (match mapR (cell_draw http_get image_open axes arr titles) ps with
       | Ok _ => Ok tt
       | Raise e => Raise e
       end, add_axes axs w) /\
    forall axs', mapR (cell_draw http_get image_open axes arr titles) ps = Ok axs' -> axs' = axs.
Proof.
  induction ps as [| p ps IH]; intros w f Hc; simpl.
  - exists []. rewrite add_axes_nil. split; [reflexivity |].
    intros axs' H. now inversion H.
  - unfold bind. rewrite (plot_cell_spec _ _ _ _ _ _ Hc).
    destruct (cell_draw http_get image_open axes arr titles p) as [ax | e].
    + destruct (IH (add_axes [ax] w) _ (add_axes_canvas [ax] w f Hc))
        as (axs & E & U).
      exists (ax :: axs). rewrite E, add_axes_app. simpl. split.
      * destruct (mapR (cell_draw http_get image_open axes arr titles) ps); reflexivity.
      * intros axs' H.
        destruct (mapR (cell_draw http_get image_open axes arr titles) ps) as [ys |];
          [| discriminate].
        inversion H. f_equal. now apply U.
    + exists []. rewrite add_axes_nil. split; [reflexivity | discriminate].
Qed.

(** The outcomes of a render: a saved figure holding what every cell
    draws, or an exception and no file. *)
Lemma plot_urls_result arr titles filename w nx ny r w' :
  shape arr = [nx; ny] ->
  plot_urls http_get image_open arr titles filename w = (r, w') ->
  (r = Ok tt /\
   exists axes axs,
     reshape_row (squeeze ny nx) = Ok axes /\
     mapR (cell_draw http_get image_open axes arr titles) (positions nx ny) = Ok axs /\
     write_error w filename = None /\
     artifacts w' = artifacts w ++ [(filename, mkFigure ny nx axs)]) \/
  (exists e, r = Raise e /\ artifacts w' = artifacts w /\
     (nx = 0 \/ ny = 0 \/ reshape_row (squeeze ny nx) = Raise e \/
      (exists axes, reshape_row (squeeze ny nx) = Ok axes /\
        mapR (cell_draw http_get image_open axes arr titles) (positions nx ny) = Raise e) \/
      (exists axes axs, reshape_row (squeeze ny nx) = Ok axes /\
        mapR (cell_draw http_get image_open axes arr titles) (positions nx ny) = Ok axs /\
        write_error w filename = Some e))).
Proof.
  intros Hs H. unfold plot_urls in H. rewrite Hs in H.
  unfold bind at 1 in H. simpl in H.
  unfold bind at 1 in H. unfold subplots in H.
  destruct (Nat.eqb ny 0 || Nat.eqb nx 0) eqn:Ez.
  { inversion H; subst. right. exists ValueError. repeat split.
    apply orb_true_iff in Ez as [E | E]; apply Nat.eqb_eq in E; auto. }
  unfold bind at 1 in H. simpl in H.
  unfold bind at 1 in H. unfold liftR at 1 in H.
  destruct (reshape_row (squeeze ny nx)) as [axes | e] eqn:Er.
  2:{ inversion H; subst. right. exists e. repeat split; auto. }
  unfold bind at 1 in H. rewrite forM_nested in H.
  fold (positions nx ny) in H.
  match type of H with context [forM_ _ _ ?w1] =>
    destruct (draw_loop axes arr titles (positions nx ny) w1
                (mkFigure ny nx []) eq_refl) as (axs & E & U)
  end.
  rewrite E in H. clear E.
  destruct (mapR (cell_draw http_get image_open axes arr titles) (positions nx ny))
    as [axs' | e] eqn:Em.
  - rewrite (U axs' eq_refl) in *. unfold bind in H.
    unfold savefig in H. simpl in H.
    destruct (write_error w filename) as [e |] eqn:Ew.
    + inversion H; subst. right. exists e. repeat split; auto.
      do 4 right. exists axes, axs. auto.
    + simpl in H. inversion H; subst. left. split; [reflexivity |].
      exists axes, axs. repeat split; auto.
  - inversion H; subst. right. exists e. repeat split; auto.
    right. right. right. left. exists axes. auto.
Qed.

End PresenterFacts.

(* ================================================================== *)
(** ** The driver *)

Lemma Forall2_impl_In {A B} (R R' : A -> B -> Prop) l l' :
  Forall2 R l l' -> (forall x y, In x l -> R x y -> R' x y) ->
  Forall2 R' l l'.
Proof.
  induction 1 as [| a b l l' Hab _ IH]; intros Himp; constructor.
  - apply Himp; simpl; auto.
  - apply IH. intros x y Hin. apply Himp. simpl; auto.
Qed.

Lemma Forall2_nth_error_r {A B} (R : A -> B -> Prop) l l' :
  Forall2 R l l' -> forall i y, nth_error l' i = Some y ->
  exists x, nth_error l i = Some x /\ R x y.
Proof.
  induction 1 as [| a b l l' Hab _ IH]; intros [| i] y H; simpl in *;
    try discriminate.
  - inversion H; subst. exists a; auto.
  - apply IH; assumption.
Qed.

Lemma mapM_ext {A B} (f f' : A -> M B) l w :
  (forall x w, f x w = f' x w) -> mapM f l w = mapM f' l w.
Proof.
  intros E. revert w. induction l as [| x xs IH]; intros w; simpl;
    [reflexivity |].
  unfold bind. rewrite E. destruct (f' x w) as [[y | e] w1]; [| reflexivity].
  rewrite IH. reflexivity.
Qed.

Lemma collect_length df : length (collect df) = nrows df.
Proof. unfold collect. now rewrite length_map, length_seq. Qed.

Lemma first_match_Ok row label v :
  first_match row label = Ok v ->
  exists m ms, Row_get row (matches_col label) = Some (VMatches (m :: ms)) /\
               v = value m.
Proof.
  unfold first_match.
  destruct (Row_get row (matches_col label)) as [[| [|] | [|] | [|] | [| m ms]] |];
    intros H; inversion H.
  exists m, ms. auto.
Qed.

Lemma framed_where_ pred name df :
  (forall v, framed (pred v)) -> framed (where_ pred name df).
Proof. intros H. unfold where_. auto 10 with frame. Qed.

Lemma framed_is_nice_obj ids v : framed (is_nice_obj ids v).
Proof. unfold is_nice_obj. auto with frame. Qed.

Section DriverFacts.

Variable http_get : string -> option string.
Variable image_open : string -> option Image.

Lemma present_Ok labels results originals urls arr filename w w' :
  mapR (fun row => of_option ValueError (Row_get row "Thumbnail_Url")) results
  = Ok originals ->
  mapR (fun label => mapR (fun row => first_match row label) results) labels
  = Ok urls ->
  array2d (originals :: urls) = Ok arr ->
  plot_urls http_get image_open arr ("Original" :: labels) filename w
  = (Ok tt, w') ->
  exists axs,
    artifacts w' = artifacts w
      ++ [(filename, mkFigure (length results) (S (length labels)) axs)] /\
    grid_of http_get image_open labels results axs.
Proof.
  intros Ho Hu Ha Hp.
  pose proof (mapR_Ok_length _ _ _ Ho) as Lo.
  pose proof (mapR_Ok_length _ _ _ Hu) as Lu.
  apply mapR_Ok_Forall2 in Ho, Hu.
  unfold array2d in Ha.
  destruct (forallb _ (originals :: urls)); [| discriminate].
  inversion Ha; subst arr; clear Ha.
  eapply plot_urls_result in Hp; [| reflexivity].
  destruct Hp as [(_ & axes & axs & Hre & Hm & _ & Hart) | (e & He & _)];
    [| discriminate].
  exists axs. simpl length in *. rewrite Lo, Lu in *. split; [exact Hart |].
  apply mapR_Ok_Forall2 in Hm. unfold grid_of.
  eapply Forall2_impl_In; [exact Hm |].
  intros [i j] ax Hin Hcell. apply in_positions in Hin as [Hi Hj].
  unfold cell_draw in Hcell. simpl fst in *. simpl snd in *.
  destruct (nth_error2 axes j i) as [axis |] eqn:Hax; [| discriminate].
  apply (axes_lookup _ _ _ _ _ _ Hre Hi Hj) in Hax. subst axis.
  simpl data in Hcell.
  destruct (nth_error2 (originals :: urls) i j) as [url |] eqn:Hd;
    [| discriminate].
  assert (Hurl : cell_url labels results (i, j) = Some url).
  { unfold cell_url, nth_error2 in *. simpl fst. simpl snd.
    destruct i as [| i]; simpl in Hd.
    - destruct (Forall2_nth_error_r _ _ _ Ho _ _ Hd) as (row & Hr & Hv).
      rewrite Hr. unfold of_option in Hv.
      destruct (Row_get row "Thumbnail_Url"); now inversion Hv.
    - destruct (nth_error urls i) as [us |] eqn:Hus; [| discriminate].
      destruct (Forall2_nth_error_r _ _ _ Hu _ _ Hus) as (label & Hl & Hv).
      apply mapR_Ok_Forall2 in Hv.
      destruct (Forall2_nth_error_r _ _ _ Hv _ _ Hd) as (row & Hr & Hf).
      now rewrite Hr, Hl, Hf. }
  exists url.
  destruct (Nat.eqb j 0).
  - destruct (nth_error ("Original" :: labels) i) as [t |]; [| discriminate].
    destruct (fetch http_get image_open url) as [img | e]; [| discriminate].
    exists img. inversion Hcell. auto.
  - destruct (fetch http_get image_open url) as [img | e]; [| discriminate].
    exists img. inversion Hcell. auto.
Qed.

(** A run of the driver that returns has saved two figures, first the one
    by culture and then the one by medium, each the grid of the collected
    result table. *)
Lemma test_all_Ok data cm cc ids root w out w' :
  test_all http_get image_open data cm cc ids root w = (Ok out, w') ->
  exists axs_c axs_m,
    artifacts w' = artifacts w
      ++ [((root ++ "matches_by_culture.png")%string,
           mkFigure (nrows out) (S (length cultures)) axs_c);
          ((root ++ "matches_by_medium.png")%string,
           mkFigure (nrows out) (S (length mediums)) axs_m)] /\
    grid_of http_get image_open cultures (collect out) axs_c /\
    grid_of http_get image_open mediums (collect out) axs_m.
Proof.
  unfold test_all. intros H.
  apply bind_inv in H as [(test_df & w1 & H1 & H) | (e & _ & He)];
    [| discriminate].
  apply framed_where_ in H1 as (_ & _ & _ & A1);
    [| apply framed_is_nice_obj].
  apply bind_inv in H as [(rm & w2 & H2 & H) | (e & _ & He)];
    [| discriminate].
  apply framed_add_matches in H2 as (_ & _ & _ & A2).
  apply bind_inv in H as [(rc & w3 & H3 & H) | (e & _ & He)];
    [| discriminate].
  apply framed_add_matches in H3 as (_ & _ & _ & A3).
  cbv zeta in H.
  apply bind_inv in H as [(originals & w4 & H4 & H) | (e & _ & He)];
    [| discriminate].
  unfold Row_getitem, lift in H4. rewrite mapM_liftR in H4.
  apply pair_equal_spec in H4 as [Ho <-].
  apply bind_inv in H as [(curls & w5 & H5 & H) | (e & _ & He)];
    [| discriminate].
  rewrite (mapM_ext _
             (fun label => liftR (mapR (fun row => first_match row label)
                                    (collect rc)))) in H5
    by (intros; apply mapM_liftR).
  rewrite mapM_liftR in H5. apply pair_equal_spec in H5 as [Hcu <-].
  apply bind_inv in H as [(carr & w6 & H6 & H) | (e & _ & He)];
    [| discriminate].
  apply liftR_inv in H6 as [Hca ->].
  apply bind_inv in H as [([] & w7 & H7 & H) | (e & _ & He)];
    [| discriminate].
  destruct (present_Ok _ _ _ _ _ _ _ _ Ho Hcu (eq_sym Hca) H7)
    as (axs_c & Ac & Gc).
  apply bind_inv in H as [(murls & w8 & H8 & H) | (e & _ & He)];
    [| discriminate].
  rewrite (mapM_ext _
             (fun label => liftR (mapR (fun row => first_match row label)
                                    (collect rc)))) in H8
    by (intros; apply mapM_liftR).
  rewrite mapM_liftR in H8. apply pair_equal_spec in H8 as [Hmu <-].
  apply bind_inv in H as [(marr & w9 & H9 & H) | (e & _ & He)];
    [| discriminate].
  apply liftR_inv in H9 as [Hma ->].
  apply bind_inv in H as [([] & w10 & H10 & H) | (e & _ & He)];
    [| discriminate].
  destruct (present_Ok _ _ _ _ _ _ _ _ Ho Hmu (eq_sym Hma) H10)
    as (axs_m & Am & Gm).
  inversion H; subst out w'.
  exists axs_c, axs_m. rewrite collect_length in *.
  split; [| split; assumption].
  rewrite Am, Ac, A3, A2, A1, <- app_assoc. reflexivity.
Qed.

End DriverFacts.

Example demo_medium_results_run :
  fst (add_matches mediums medium_cknn_params demo_queries demo_world)
  = Ok demo_medium_results.
Proof. reflexivity. Qed.

Example demo_medium_index_bound :
  lookup_index "Classification" demo_world = Some demo_medium_index.
Proof. reflexivity. Qed.

(* ================================================================== *)
(** ** The query orchestrator: statements *)

(** C10. [add_matches] with an empty condition sequence returns the input
    table unchanged and leaves the world, hence the log of match requests,
    as it was. *)
Theorem add_matches_nil_identity cknn df w :
  add_matches [] cknn df w = (Ok df, w).
Proof. reflexivity. Qed.

(** C1, as stated, fails: with one condition the seeded table gains two
    columns, the conditioner column besides the match column. *)
Lemma add_matches_adds_conditioner :
  exists out w',
    add_matches ["glass"] medium_cknn_params demo_queries demo_world
    = (Ok out, w') /\
    columns out
    = ["id"; "Thumbnail_Url"; "Norm_Features"; "conditioner"; "Matches_glass"]
    /\ columns out <> columns demo_queries ++ map matches_col ["glass"].
Proof.
  eexists. eexists. split; [reflexivity |]. split; [reflexivity |].
  discriminate.
Qed.

(** C1, amended. On a ready table and a non-empty sequence of conditions,
    [add_matches] returns the input table with its conditioner column set
    to the last condition on every row, followed by one column
    "Matches_<label>" per condition, in input order, holding per row the
    result of querying the index with that row's embedding.  The
    conditioner column is appended after the input columns when the input
    has none; an input column named "conditioner", whatever the case of
    its name, is replaced where it is and named "conditioner".  Every
    other input column is unchanged and in place, the number of rows is
    kept, and one request per condition and row is issued, in that
    order. *)
Theorem add_matches_appends_match_columns classes cknn df w tree vs :
  ready cknn df w tree vs -> classes <> [] ->
  exists out w',
    add_matches classes cknn df w = (Ok out, w') /\
    nrows out = nrows df /\
    cols out =
      cols (conditioned (last classes "") df)
      ++ map (fun l =>
                (matches_col l,
                 map (fun v => VMatches (query tree v [l] (k cknn))) vs))
           classes /\
    (has_column "conditioner" df = false ->
     cols (conditioned (last classes "") df)
     = cols df
       ++ [("conditioner", repeat (VArray [last classes ""]) (nrows df))] /\
     columns out = columns df ++ "conditioner" :: map matches_col classes) /\
    (forall p name cells,
       nth_error (cols df) p = Some (name, cells) ->
       nth_error (cols out) p
       = Some (if same_name name "conditioner"
               then ("conditioner",
                     repeat (VArray [last classes ""]) (nrows df))
               else (name, cells))) /\
    requests w' =
      requests w
      ++ flat_map (fun l =>
                     map (fun v => mkRequest (labelCol cknn) v [l] (k cknn))
                       vs)
           classes.
Proof.
  intros Hs Hne. rewrite (add_matches_on_ready _ _ _ _ _ _ Hs Hne).
  eexists. eexists. split; [reflexivity |]. cbn [nrows cols].
  split; [reflexivity |]. split; [reflexivity |]. split; [| split].
  - intros Hc. unfold conditioned, withColumn, set_column. rewrite Hc.
    cbn [cols]. split; [reflexivity |].
    unfold columns. cbn [cols]. rewrite !map_app, map_map. cbn [map fst].
    rewrite <- app_assoc. reflexivity.
  - intros p name cells Hp.
    assert (E : nth_error (cols (conditioned (last classes "") df)) p
                = Some (if same_name name "conditioner"
                        then ("conditioner",
                              repeat (VArray [last classes ""]) (nrows df))
                        else (name, cells))).
    { unfold conditioned, withColumn, array_lit.
      destruct (same_name name "conditioner") eqn:En.
      - now apply (set_column_replaces _ _ _ _ _ Hp).
      - now apply (set_column_keeps _ _ _ _ _ Hp). }
    rewrite nth_error_app1; [exact E |].
    apply nth_error_Some. rewrite E. discriminate.
  - reflexivity.
Qed.

Lemma add_matches_appends_match_columns_witness :
  exists out w',
    add_matches mediums medium_cknn_params demo_queries demo_world
    = (Ok out, w') /\
    nrows out = nrows demo_queries /\
    cols out =
      cols (conditioned (last mediums "") demo_queries)
      ++ map (fun l =>
                (matches_col l,
                 map (fun v => VMatches (query demo_medium_index v [l]
                                           (k medium_cknn_params)))
                   [[1; 0]%Z; [3; 3]%Z]))
           mediums /\
    (has_column "conditioner" demo_queries = false ->
     cols (conditioned (last mediums "") demo_queries)
     = cols demo_queries
       ++ [("conditioner",
            repeat (VArray [last mediums ""]) (nrows demo_queries))] /\
     columns out
     = columns demo_queries ++ "conditioner" :: map matches_col mediums) /\
    (forall p name cells,
       nth_error (cols demo_queries) p = Some (name, cells) ->
       nth_error (cols out) p
       = Some (if same_name name "conditioner"
               then ("conditioner",
                     repeat (VArray [last mediums ""]) (nrows demo_queries))
               else (name, cells))) /\
    requests w' =
      requests demo_world
      ++ flat_map (fun l =>
                     map (fun v => mkRequest (labelCol medium_cknn_params) v
                                     [l] (k medium_cknn_params))
                       [[1; 0]%Z; [3; 3]%Z])
           mediums.
Proof.
  apply (add_matches_appends_match_columns mediums medium_cknn_params
           demo_queries demo_world demo_medium_index [[1; 0]%Z; [3; 3]%Z]).
  - repeat split; try reflexivity; simpl; lia.
  - discriminate.
Defined.

(** On a table whose conditioner column is named "Conditioner", that
    column is overwritten and renamed where it is; no second one is
    added. *)
Example add_matches_replaces_conditioner_of_any_case :
  exists out w',
    add_matches ["glass"] medium_cknn_params demo_cased_queries demo_world
    = (Ok out, w') /\
    columns out
    = ["id"; "Thumbnail_Url"; "conditioner"; "Norm_Features";
       "Matches_glass"] /\
    resolve "conditioner" out = Some [VArray ["glass"]; VArray ["glass"]].
Proof.
  eexists. eexists. split; [reflexivity |]. split; reflexivity.
Qed.

(** C2. On a ready table, the orchestration returns, and for every
    condition of the sequence that no entity of the index carries, the
    column of that condition is present among the match columns, which are
    the last columns of the result, and holds the empty match result on
    every row. *)
Theorem add_matches_empty_for_unmatched_condition
    classes cknn df w tree vs i l :
  ready cknn df w tree vs ->
  nth_error classes i = Some l ->
  existsb (fun e => String.eqb (label e) l) tree = false ->
  exists out w',
    add_matches classes cknn df w = (Ok out, w') /\
    nth_error (cols out) (length (cols out) - length classes + i)
    = Some (matches_col l, repeat (VMatches []) (nrows df)).
Proof.
  intros Hs Hl Hno.
  assert (Hne : classes <> []) by (intros ->; destruct i; discriminate).
  rewrite (add_matches_on_ready _ _ _ _ _ _ Hs Hne).
  eexists. eexists. split; [reflexivity |]. cbn [cols].
  rewrite (nth_error_match_column
             (fun l => (matches_col l, match_cells cknn tree vs l))
             _ _ _ _ Hl).
  do 2 f_equal. unfold match_cells.
  destruct Hs as (_ & _ & _ & _ & _ & <- & _).
  induction vs as [| v vs' IH]; simpl; [reflexivity |].
  rewrite (query_no_match _ _ _ _ Hno). f_equal. apply IH.
Qed.

Lemma add_matches_empty_for_unmatched_condition_witness :
  exists out w',
    add_matches ["glass"; "stone"] medium_cknn_params demo_queries demo_world
    = (Ok out, w') /\
    nth_error (cols out) (length (cols out) - length ["glass"; "stone"] + 1)
    = Some (matches_col "stone", repeat (VMatches []) (nrows demo_queries)).
Proof.
  apply (add_matches_empty_for_unmatched_condition ["glass"; "stone"]
           medium_cknn_params demo_queries demo_world demo_medium_index
           [[1; 0]%Z; [3; 3]%Z] 1 "stone").
  - repeat split; try reflexivity; simpl; lia.
  - reflexivity.
  - reflexivity.
Defined.

(** C4. The table an orchestration returns depends on the world through
    its indexes only: two runs with the same conditions, model and query
    table, in worlds with the same indexes, give the same outcome. *)
Theorem add_matches_deterministic classes cknn df w1 w2 :
  indexes w1 = indexes w2 ->
  fst (add_matches classes cknn df w1) = fst (add_matches classes cknn df w2).
Proof. intros H. now apply respects_add_matches. Qed.

Lemma add_matches_deterministic_witness :
  fst (add_matches mediums medium_cknn_params demo_queries demo_world)
  = fst (add_matches mediums medium_cknn_params demo_queries
           (snd (add_matches mediums medium_cknn_params demo_queries
                   demo_world))).
Proof.
  apply (add_matches_deterministic mediums medium_cknn_params demo_queries
           demo_world
           (snd (add_matches mediums medium_cknn_params demo_queries
                   demo_world))).
  reflexivity.
Defined.

(** Running the orchestrator a second time, in the world the first run
    left, gives the table of the first run. *)
Corollary add_matches_rerun classes cknn df w :
  fst (add_matches classes cknn df (snd (add_matches classes cknn df w)))
  = fst (add_matches classes cknn df w).
Proof.
  symmetry. apply respects_add_matches.
  destruct (add_matches classes cknn df w) as [r w'] eqn:E.
  apply framed_add_matches in E as (_ & I & _). simpl. now rewrite I.
Qed.

(** C6. The requested result count is the model's, the same for every
    request of a run; with the default count every cell of every match
    column of the result, the last columns of the table, holds a match
    list of length at most one. *)
Theorem match_cells_singleton_or_empty classes cknn df w tree vs out w' :
  ready cknn df w tree vs ->
  k cknn = default_k ->
  add_matches classes cknn df w = (Ok out, w') ->
  (forall i l, nth_error classes i = Some l ->
     exists cells,
       nth_error (cols out) (length (cols out) - length classes + i)
       = Some (matches_col l, cells) /\
       length cells = nrows df /\
       Forall (fun c => exists ms, c = VMatches ms /\ length ms <= 1) cells) /\
  exists rs, requests w' = requests w ++ rs /\
             Forall (fun r => req_k r = 1) rs.
Proof.
  intros Hs Hk H.
  assert (Hcase : classes = [] \/ classes <> [])
    by (destruct classes; [left; reflexivity | right; discriminate]).
  destruct Hcase as [-> | Hne].
  { inversion H; subst. split.
    - intros [| i] l Hl; discriminate.
    - exists []. now rewrite app_nil_r. }
  rewrite (add_matches_on_ready _ _ _ _ _ _ Hs Hne) in H.
  inversion H; subst out w'; clear H. cbn [cols]. split.
  - intros i l Hl. eexists. split.
    + apply (nth_error_match_column
               (fun l => (matches_col l, match_cells cknn tree vs l))
               _ _ _ _ Hl).
    + destruct Hs as (_ & _ & _ & _ & _ & Hlen & _). unfold match_cells.
      split; [now rewrite length_map |].
      apply Forall_forall. intros c Hc.
      apply in_map_iff in Hc as (v & <- & _).
      eexists. split; [reflexivity |]. rewrite Hk. apply query_length.
  - eexists. split; [reflexivity |].
    apply Forall_forall. intros r Hr.
    apply in_flat_map in Hr as (l & _ & Hr). unfold match_requests in Hr.
    apply in_map_iff in Hr as (v & <- & _). simpl. exact Hk.
Qed.

Lemma match_cells_singleton_or_empty_witness :
  (forall i l, nth_error cultures i = Some l ->
     exists cells,
       nth_error (cols demo_results)
         (length (cols demo_results) - length cultures + i)
       = Some (matches_col l, cells) /\
       length cells = nrows demo_medium_results /\
       Forall (fun c => exists ms, c = VMatches ms /\ length ms <= 1) cells) /\
  exists rs,
    requests (snd (add_matches cultures culture_cknn_params
                     demo_medium_results demo_world))
    = requests demo_world ++ rs /\
    Forall (fun r => req_k r = 1) rs.
Proof.
  apply (match_cells_singleton_or_empty cultures culture_cknn_params
           demo_medium_results demo_world demo_culture_index
           [[1; 0]%Z; [3; 3]%Z] demo_results
           (snd (add_matches cultures culture_cknn_params
                   demo_medium_results demo_world))).
  - repeat split; try reflexivity; simpl; lia.
  - reflexivity.
  - reflexivity.
Defined.

(** C8, as stated, fails: a conditioner column already in the input, as in
    the table the driver passes to its second orchestration, is
    overwritten with the last condition. *)
Lemma add_matches_overwrites_conditioner :
  resolve "conditioner" demo_medium_results
  = Some [VArray ["ceramics"]; VArray ["ceramics"]] /\
  exists out w',
    add_matches cultures culture_cknn_params demo_medium_results demo_world
    = (Ok out, w') /\
    resolve "conditioner" out
    = Some [VArray ["african (general)"]; VArray ["african (general)"]] /\
    ~ In ("conditioner", [VArray ["ceramics"]; VArray ["ceramics"]])
        (cols out).
Proof.
  split; [reflexivity |]. eexists. eexists.
  split; [reflexivity |]. split; [reflexivity |].
  simpl. intros H.
  repeat (destruct H as [H | H]; [discriminate |]). exact H.
Qed.

(** C8, amended. For a model whose output column is "Matches", whatever
    the outcome of [add_matches], the entity store, the indexes, the
    current figure and the written files are as before; when it returns,
    the table has the same number of rows and every input column not named
    "conditioner" or "Matches", in whatever case, is unchanged and in
    place. *)
Theorem add_matches_frame classes cknn df w r w' :
  outputCol cknn = "Matches" ->
  add_matches classes cknn df w = (r, w') ->
  entity_store w' = entity_store w /\ indexes w' = indexes w /\
  canvas w' = canvas w /\ artifacts w' = artifacts w /\
  forall out, r = Ok out ->
    nrows out = nrows df /\
    forall p name cells,
      nth_error (cols df) p = Some (name, cells) ->
      same_name name "conditioner" = false ->
      same_name name "Matches" = false ->
      nth_error (cols out) p = Some (name, cells).
Proof.
  intros Hout H.
  destruct (framed_add_matches _ _ _ _ _ _ H) as (S & I & C & A).
  repeat (split; [assumption |]).
  intros out ->. destruct (add_matches_keeps _ _ _ _ _ _ Hout H) as [N K].
  split; [exact N |]. intros p name cells Hp Hc Hm. now apply K.
Qed.

Lemma add_matches_frame_witness :
  entity_store (snd (add_matches cultures culture_cknn_params
                       demo_medium_results demo_world))
  = entity_store demo_world /\
  indexes (snd (add_matches cultures culture_cknn_params
                  demo_medium_results demo_world))
  = indexes demo_world /\
  canvas (snd (add_matches cultures culture_cknn_params
                 demo_medium_results demo_world))
  = canvas demo_world /\
  artifacts (snd (add_matches cultures culture_cknn_params
                    demo_medium_results demo_world))
  = artifacts demo_world /\
  forall out,
    Ok demo_results = Ok out ->
    nrows out = nrows demo_medium_results /\
    forall p name cells,
      nth_error (cols demo_medium_results) p = Some (name, cells) ->
      same_name name "conditioner" = false ->
      same_name name "Matches" = false ->
      nth_error (cols out) p = Some (name, cells).
Proof.
  apply (add_matches_frame cultures culture_cknn_params demo_medium_results
           demo_world (Ok demo_results)
           (snd (add_matches cultures culture_cknn_params
                   demo_medium_results demo_world))).
  - reflexivity.
  - reflexivity.
Defined.

(* ================================================================== *)
(** ** The presenter and the driver: statements *)

Lemma grid_of_layout http_get image_open labels results axs n :
  grid_of http_get image_open labels results axs ->
  n = length results ->
  layout labels n (mkFigure n (S (length labels)) axs).
Proof.
  unfold grid_of. intros G ->. unfold layout. simpl.
  split; [reflexivity |]. split; [reflexivity |]. split; [| split].
  - rewrite <- (Forall2_length G). apply positions_length.
  - intros i j Hi Hj.
    destruct (Forall2_In_l _ _ _ (i, j) G) as (ax & Hin & url & img & _ & _ & E).
    { apply in_positions. auto. }
    exists ax. subst ax. simpl. auto.
  - intros ax Hin.
    destruct (Forall2_In_r _ _ _ ax G Hin) as ([i j] & Hp & url & img & _ & _ & E).
    apply in_positions in Hp as [Hi Hj]. subst ax. simpl. auto.
Qed.

Lemma grid_of_shows http_get image_open labels results axs n :
  grid_of http_get image_open labels results axs ->
  shows http_get image_open labels results
    (mkFigure n (S (length labels)) axs).
Proof.
  unfold grid_of. intros G. unfold shows. simpl. split.
  - rewrite <- (Forall2_length G). apply positions_length.
  - intros j row Hrow.
    assert (Hj : j < length results) by (apply nth_error_Some; congruence).
    split.
    + destruct (Forall2_In_l _ _ _ (0, j) G)
        as (ax & Hin & url & img & Hu & Hf & E).
      { apply in_positions. lia. }
      unfold cell_url in Hu. simpl in Hu, E. rewrite Hrow in Hu.
      exists url, img. subst ax. auto.
    + intros i label Hl.
      assert (Hi : i < length labels) by (apply nth_error_Some; congruence).
      destruct (Forall2_In_l _ _ _ (S i, j) G)
        as (ax & Hin & url & img & Hu & Hf & E).
      { apply in_positions. lia. }
      unfold cell_url in Hu. simpl in Hu, E. rewrite Hrow, Hl in Hu.
      destruct (first_match row label) as [v |] eqn:Hfm; [| discriminate].
      inversion Hu; subst v.
      destruct (first_match_Ok _ _ _ Hfm) as (m & ms & Hg & ->).
      exists m, ms, img. rewrite Hl in E. subst ax. auto.
Qed.

(** C3. If fetching or decoding the URL of any cell of the grid fails, the
    render raises and writes no file; and when the grid has at least two
    array rows, one array column, a title per array row and a URL in every
    cell, what it raises is the fetch failure of a cell. *)
Theorem plot_urls_aborts_on_fetch_failure
    http_get image_open arr titles filename w nx ny i j url e0 :
  shape arr = [nx; ny] -> i < nx -> j < ny ->
  nth_error2 (data arr) i j = Some url ->
  fetch http_get image_open url = Raise e0 ->
  exists e w',
    plot_urls http_get image_open arr titles filename w = (Raise e, w') /\
    artifacts w' = artifacts w /\
    (2 <= nx -> 1 <= ny -> nx <= length titles ->
     (forall i' j', i' < nx -> j' < ny ->
        nth_error2 (data arr) i' j' <> None) ->
     exists i' j' url',
       i' < nx /\ j' < ny /\
       nth_error2 (data arr) i' j' = Some url' /\
       fetch http_get image_open url' = Raise e).
Proof.
  intros Hs Hi Hj Hurl Hfetch.
  assert (Hnot : forall axes axs,
            mapR (cell_draw http_get image_open axes arr titles)
              (positions nx ny) = Ok axs -> False).
  { intros axes axs Hm. apply mapR_Ok_Forall2 in Hm.
    destruct (Forall2_In_l _ _ _ (i, j) Hm) as (ax & _ & Hc).
    { apply in_positions. auto. }
    unfold cell_draw in Hc. simpl in Hc. rewrite Hurl, Hfetch in Hc.
    destruct (nth_error2 axes j i); [| discriminate].
    destruct (Nat.eqb j 0); [| discriminate].
    destruct (nth_error titles i); discriminate. }
  destruct (plot_urls http_get image_open arr titles filename w)
    as [r w'] eqn:E.
  destruct (plot_urls_result _ _ _ _ _ _ _ _ _ _ Hs E)
    as [(_ & axes & axs & Hre & Hm & _) | (e & -> & Hart & Hcase)].
  - exfalso. exact (Hnot _ _ Hm).
  - exists e, w'. split; [reflexivity |]. split; [exact Hart |].
    intros Hx Hy Ht Hfull.
    destruct (axes_total ny nx Hx Hy) as (axes' & Hre' & Hlook).
    destruct Hcase
      as [-> | [-> | [Hr | [(axes & Hre & Hm) | (axes & axs & _ & Hm & _)]]]];
      try lia.
    { rewrite Hre' in Hr. discriminate. }
    2:{ exfalso. exact (Hnot _ _ Hm). }
    rewrite Hre' in Hre. inversion Hre; subst axes'.
    apply mapR_Raise_In in Hm as ([i' j'] & Hp & Hc).
    apply in_positions in Hp as [Hi' Hj'].
    unfold cell_draw in Hc. simpl in Hc. rewrite (Hlook _ _ Hi' Hj') in Hc.
    specialize (Hfull _ _ Hi' Hj').
    destruct (nth_error2 (data arr) i' j') as [url' |] eqn:Hu;
      [| congruence].
    assert (Hti : exists t, nth_error titles i' = Some t).
    { destruct (nth_error titles i') as [t |] eqn:Hn; [eauto |].
      apply nth_error_None in Hn. lia. }
    destruct Hti as [t Hti]. rewrite Hti in Hc.
    exists i', j', url'. repeat split; auto.
    destruct (Nat.eqb j' 0);
      destruct (fetch http_get image_open url') as [img | e1];
      try discriminate; now inversion Hc.
Qed.

Lemma plot_urls_aborts_on_fetch_failure_witness :
  exists e w',
    plot_urls flaky_http demo_decode demo_url_arr ["Original"; "glass"]
      "./grid.png" demo_world = (Raise e, w') /\
    artifacts w' = artifacts demo_world /\
    (2 <= 2 -> 1 <= 2 -> 2 <= length ["Original"; "glass"] ->
     (forall i' j', i' < 2 -> j' < 2 ->
        nth_error2 (data demo_url_arr) i' j' <> None) ->
     exists i' j' url',
       i' < 2 /\ j' < 2 /\
       nth_error2 (data demo_url_arr) i' j' = Some url' /\
       fetch flaky_http demo_decode url' = Raise e).
Proof.
  apply (plot_urls_aborts_on_fetch_failure flaky_http demo_decode
           demo_url_arr ["Original"; "glass"] "./grid.png" demo_world
           2 2 1 0 (VString "u4") (ConnectionError "u4")).
  - reflexivity.
  - lia.
  - lia.
  - reflexivity.
  - reflexivity.
Defined.

(** C5, as stated, fails: for two query entities and three conditions the
    saved grids have two rows and four columns, a row per query entity and
    a column per original or condition, not the converse. *)
Lemma test_all_grid_is_queries_by_conditions :
  exists out w',
    test_all demo_http demo_decode demo_store medium_cknn_params
      culture_cknn_params ["a1"; "a6"] "./" demo_world = (Ok out, w') /\
    nrows out = 2 /\
    map (fun a => (fst a, fig_nrows (snd a), fig_ncols (snd a)))
        (artifacts w')
    = [("./matches_by_culture.png", 2, 4);
       ("./matches_by_medium.png", 2, 4)] /\
    ~ (forall a, In a (artifacts w') ->
         fig_ncols (snd a) = nrows out /\
         fig_nrows (snd a) = 1 + length cultures).
Proof.
  eexists. eexists. split; [vm_compute; reflexivity |].
  split; [reflexivity |]. split; [reflexivity |].
  intros H. specialize (H _ (or_introl eq_refl)). simpl in H.
  destruct H as [H _]. discriminate.
Qed.

(** C5, amended. A run of the driver that returns has saved two figures;
    each is a grid with one row per query entity and one column for the
    original and each condition, every cell drawn once; "Original" and the
    condition labels are the titles of the columns, set on the first row
    only, and no title names a query entity. *)
Theorem test_all_grid_layout
    http_get image_open data cm cc ids root w out w' :
  test_all http_get image_open data cm cc ids root w = (Ok out, w') ->
  exists figc figm,
    artifacts w' = artifacts w
      ++ [((root ++ "matches_by_culture.png")%string, figc);
          ((root ++ "matches_by_medium.png")%string, figm)] /\
    layout cultures (nrows out) figc /\
    layout mediums (nrows out) figm.
Proof.
  intros H. apply test_all_Ok in H as (axs_c & axs_m & A & Gc & Gm).
  eexists. eexists. split; [exact A |]. split.
  - eapply grid_of_layout; [exact Gc | now rewrite collect_length].
  - eapply grid_of_layout; [exact Gm | now rewrite collect_length].
Qed.

Lemma test_all_grid_layout_witness :
  exists figc figm,
    artifacts (snd (test_all demo_http demo_decode demo_store medium_cknn_params
                    culture_cknn_params ["a1"; "a6"] "./" demo_world))
    = artifacts demo_world
      ++ [(("./" ++ "matches_by_culture.png")%string, figc);
          (("./" ++ "matches_by_medium.png")%string, figm)] /\
    layout cultures (nrows demo_driver_results) figc /\
    layout mediums (nrows demo_driver_results) figm.
Proof.
  apply (test_all_grid_layout demo_http demo_decode demo_store
           medium_cknn_params culture_cknn_params ["a1"; "a6"] "./"
           demo_world demo_driver_results).
  vm_compute. reflexivity.
Defined.

(** C7. A run of the driver that returns has saved two figures which show,
    for every query row, the row's own thumbnail and, for every condition,
    the value of element 0 of the row's match result for that condition,
    and nothing else. *)
Theorem test_all_shows_original_and_first_match
    http_get image_open data cm cc ids root w out w' :
  test_all http_get image_open data cm cc ids root w = (Ok out, w') ->
  exists figc figm,
    artifacts w' = artifacts w
      ++ [((root ++ "matches_by_culture.png")%string, figc);
          ((root ++ "matches_by_medium.png")%string, figm)] /\
    shows http_get image_open cultures (collect out) figc /\
    shows http_get image_open mediums (collect out) figm.
Proof.
  intros H. apply test_all_Ok in H as (axs_c & axs_m & A & Gc & Gm).
  eexists. eexists. split; [exact A |]. split.
  - eapply grid_of_shows. exact Gc.
  - eapply grid_of_shows. exact Gm.
Qed.

Lemma test_all_shows_original_and_first_match_witness :
  exists figc figm,
    artifacts (snd (test_all demo_http demo_decode demo_store medium_cknn_params
                    culture_cknn_params ["a1"; "a6"] "./" demo_world))
    = artifacts demo_world
      ++ [(("./" ++ "matches_by_culture.png")%string, figc);
          (("./" ++ "matches_by_medium.png")%string, figm)] /\
    shows demo_http demo_decode cultures (collect demo_driver_results) figc /\
    shows demo_http demo_decode mediums (collect demo_driver_results) figm.
Proof.
  apply (test_all_shows_original_and_first_match demo_http demo_decode
           demo_store medium_cknn_params culture_cknn_params ["a1"; "a6"]
           "./" demo_world demo_driver_results).
  vm_compute. reflexivity.
Defined.

(** C9. The driver returns only if, for every collected row and every
    condition of either sequence, the match result is a non-empty list;
    and there is an input (a store without any Japanese work) whose result
    table holds an empty match result and on which the driver raises
    IndexError and writes no file. *)
Theorem test_all_requires_nonempty_matches :
  (forall http_get image_open data cm cc ids root w out w',
     test_all http_get image_open data cm cc ids root w = (Ok out, w') ->
     forall row label,
       In row (collect out) -> In label (cultures ++ mediums) ->
       exists m ms,
         Row_get row (matches_col label) = Some (VMatches (m :: ms))) /\
  (exists test_df rm rc w1 w2 w3 w',
     where_ (is_nice_obj ["b1"]) "id" sparse_store sparse_world
     = (Ok test_df, w1) /\
     add_matches mediums medium_cknn_params test_df w1 = (Ok rm, w2) /\
     add_matches cultures culture_cknn_params rm w2 = (Ok rc, w3) /\
     resolve (matches_col "japanese") rc = Some [VMatches []] /\
     test_all demo_http demo_decode sparse_store medium_cknn_params
       culture_cknn_params ["b1"] "./" sparse_world
     = (Raise IndexError, w') /\
     artifacts w' = artifacts sparse_world).
Proof.
  split.
  - intros http_get image_open data cm cc ids root w out w' H row label Hr Hl.
    apply test_all_Ok in H as (axs_c & axs_m & _ & Gc & Gm).
    apply In_nth_error in Hr as [j Hj].
    apply (grid_of_shows _ _ _ _ _ (nrows out)) in Gc, Gm.
    destruct Gc as [_ Gc], Gm as [_ Gm].
    apply in_app_or in Hl as [Hl | Hl]; apply In_nth_error in Hl as [i Hi].
    + destruct (proj2 (Gc j row Hj) i label Hi) as (m & ms & _ & Hg & _).
      eauto.
    + destruct (proj2 (Gm j row Hj) i label Hi) as (m & ms & _ & Hg & _).
      eauto.
  - do 7 eexists. split; [vm_compute; reflexivity |].
    split; [vm_compute; reflexivity |]. split; [vm_compute; reflexivity |].
    split; [reflexivity |]. split; [vm_compute; reflexivity | reflexivity].
Qed.

Lemma test_all_requires_nonempty_matches_witness :
  fst (test_all demo_http demo_decode demo_store medium_cknn_params
          culture_cknn_params ["a1"; "a6"] "./" demo_world)
  = Ok demo_driver_results /\
  forall row label,
    In row (collect demo_driver_results) -> In label (cultures ++ mediums) ->
    exists m ms,
      Row_get row (matches_col label) = Some (VMatches (m :: ms)).
Proof.
  split; [vm_compute; reflexivity |].
  apply (proj1 test_all_requires_nonempty_matches demo_http demo_decode
           demo_store medium_cknn_params culture_cknn_params ["a1"; "a6"]
           "./" demo_world demo_driver_results
           (snd (test_all demo_http demo_decode demo_store medium_cknn_params
          culture_cknn_params ["a1"; "a6"] "./" demo_world))).
  vm_compute. reflexivity.
Defined.

(** When the empty match result belongs to a medium, the figure by culture
    is already written when the driver raises. *)
Example test_all_raises_after_first_figure :
  exists w',
    test_all demo_http demo_decode glassless_store medium_cknn_params
      culture_cknn_params ["c1"] "./" glassless_world
    = (Raise IndexError, w') /\
    map fst (artifacts w') = ["./matches_by_culture.png"].
Proof. eexists. split; [vm_compute; reflexivity | reflexivity]. Qed.

(* ================================================================== *)
(** ** Further properties of the presenter *)

Lemma plot_urls_outcome http_get image_open arr titles filename w nx ny :
  shape arr = [nx; ny] ->
  fst (plot_urls http_get image_open arr titles filename w)
  = render_outcome http_get image_open arr titles nx ny
      (write_error w filename).
Proof.
  intros Hs. unfold plot_urls, render_outcome. rewrite Hs.
  unfold bind at 1. simpl. unfold bind at 1. unfold subplots.
  destruct (Nat.eqb ny 0 || Nat.eqb nx 0); [reflexivity |].
  unfold bind at 1. simpl. unfold bind at 1. unfold liftR at 1.
  destruct (reshape_row (squeeze ny nx)) as [axes | e]; [| reflexivity].
  unfold bind at 1. rewrite forM_nested. fold (positions nx ny).
  match goal with |- context [forM_ _ _ ?w1] =>
    destruct (draw_loop http_get image_open axes arr titles
                (positions nx ny) w1 (mkFigure ny nx []) eq_refl)
      as (axs & E & _)
  end.
  rewrite E.
  destruct (mapR (cell_draw http_get image_open axes arr titles)
              (positions nx ny)); [| reflexivity].
  unfold bind, savefig. simpl.
  destruct (write_error w filename); reflexivity.
Qed.

Lemma plot_urls_Raise_keeps_files
    http_get image_open arr titles filename w nx ny e w' :
  shape arr = [nx; ny] ->
  plot_urls http_get image_open arr titles filename w = (Raise e, w') ->
  artifacts w' = artifacts w.
Proof.
  intros Hs H.
  destruct (plot_urls_result _ _ _ _ _ _ _ _ _ _ Hs H)
    as [(Hr & _) | (e' & _ & Hart & _)]; [discriminate | exact Hart].
Qed.

(** When a render returns: the array has at least two rows and one
    column, every array row has a title, every cell draws, and the file is
    written. *)
Lemma render_outcome_Ok http_get image_open arr titles nx ny saved :
  render_outcome http_get image_open arr titles nx ny saved = Ok tt <->
  (2 <= nx /\ 1 <= ny /\ nx <= length titles /\
   (forall i j, i < nx -> j < ny ->
      exists url img,
        nth_error2 (data arr) i j = Some url /\
        fetch http_get image_open url = Ok img) /\
   saved = None).
Proof.
  unfold render_outcome. split.
  - intros Ho.
    destruct (Nat.eqb ny 0 || Nat.eqb nx 0) eqn:Ez; [discriminate |].
    apply orb_false_iff in Ez as [Ey Ex].
    apply Nat.eqb_neq in Ey, Ex.
    destruct (reshape_row (squeeze ny nx)) as [axes |] eqn:Hre;
      [| discriminate].
    destruct (mapR (cell_draw http_get image_open axes arr titles)
                (positions nx ny)) as [axs |] eqn:Hm; [| discriminate].
    apply mapR_Ok_Forall2 in Hm.
    assert (Hcell : forall i j, i < nx -> j < ny ->
              exists ax, cell_draw http_get image_open axes arr titles (i, j)
                         = Ok ax).
    { intros i j Hi Hj.
      destruct (Forall2_In_l _ _ _ (i, j) Hm) as (ax & _ & Hc);
        [apply in_positions; auto | eauto]. }
    assert (Hnx : 2 <= nx).
    { destruct (Nat.eq_dec nx 1) as [-> |]; [| lia]. exfalso.
      unfold squeeze in Hre. destruct (Nat.eqb ny 1) eqn:E1; simpl in Hre;
        [discriminate |].
      apply Nat.eqb_neq in E1. inversion Hre; subst axes.
      destruct (Hcell 0 1) as [ax Hc]; [lia | lia |].
      unfold cell_draw, nth_error2 in Hc. simpl in Hc. discriminate. }
    split; [exact Hnx |]. split; [lia |]. split; [| split].
    + destruct (Hcell (nx - 1) 0) as [ax Hc]; [lia | lia |].
      unfold cell_draw in Hc. simpl in Hc.
      destruct (nth_error2 axes 0 (nx - 1)); [| discriminate].
      destruct (nth_error2 (data arr) (nx - 1) 0); [| discriminate].
      destruct (nth_error titles (nx - 1)) eqn:Ht; [| discriminate].
      assert (nx - 1 < length titles)
        by (apply nth_error_Some; congruence).
      lia.
    + intros i j Hi Hj. destruct (Hcell i j Hi Hj) as [ax Hc].
      unfold cell_draw in Hc. simpl in Hc.
      destruct (nth_error2 axes j i); [| discriminate].
      destruct (nth_error2 (data arr) i j) as [url |]; [| discriminate].
      exists url.
      destruct (fetch http_get image_open url) as [img | e] eqn:Hf.
      * exists img. auto.
      * destruct (Nat.eqb j 0); [| discriminate].
        destruct (nth_error titles i); discriminate.
    + destruct saved; [discriminate | reflexivity].
  - intros (Hx & Hy & Ht & Hcells & ->).
    assert (Ey : Nat.eqb ny 0 = false) by (apply Nat.eqb_neq; lia).
    assert (Ex : Nat.eqb nx 0 = false) by (apply Nat.eqb_neq; lia).
    rewrite Ey, Ex. simpl.
    destruct (axes_total ny nx Hx Hy) as (axes & Hre & Hlook).
    rewrite Hre.
    destruct (mapR (cell_draw http_get image_open axes arr titles)
                (positions nx ny)) as [axs | e] eqn:Hm; [reflexivity |].
    exfalso. apply mapR_Raise_In in Hm as ([i j] & Hp & Hc).
    apply in_positions in Hp as [Hi Hj].
    unfold cell_draw in Hc. simpl in Hc. rewrite (Hlook _ _ Hi Hj) in Hc.
    destruct (Hcells i j Hi Hj) as (url & img & Hu & Hf).
    rewrite Hu, Hf in Hc.
    destruct (nth_error titles i) eqn:Hn.
    + destruct (Nat.eqb j 0); discriminate.
    + apply nth_error_None in Hn. lia.
Qed.



(** Without the directory the figure is to be written in, the same render
    draws every cell and then raises; no file is written. *)
Example plot_urls_missing_directory :
  exists w',
    plot_urls demo_http demo_decode demo_url_arr ["Original"; "glass"]
      "out/grid.png"
      (mkWorld demo_store [] [] None [] no_out_dir)
    = (Raise (FileNotFoundError "out/grid.png"), w') /\
    artifacts w' = [] /\
    option_map (fun f => length (fig_axes f)) (canvas w') = Some 4.
Proof. eexists. split; [vm_compute; reflexivity | split; reflexivity]. Qed.

(** X2. An array with a single row, the originals alone, cannot be
    rendered: the render raises and writes no file.  Without a column it
    raises ValueError; with one column the single axes object has no shape
    and it raises AttributeError; with more columns the axes, reshaped to
    one row, are indexed by column as if they were rows, and once the
    first cell is drawn it raises IndexError. *)
Theorem plot_urls_single_row_fails
    http_get image_open arr titles filename w ny :
  shape arr = [1; ny] ->
  exists e w',
    plot_urls http_get image_open arr titles filename w = (Raise e, w') /\
    artifacts w' = artifacts w /\
    (ny = 0 -> e = ValueError) /\
    (ny = 1 -> e = AttributeError) /\
    (2 <= ny ->
     forall url img t,
       nth_error2 (data arr) 0 0 = Some url ->
       fetch http_get image_open url = Ok img ->
       nth_error titles 0 = Some t ->
       e = IndexError).
Proof.
  intros Hs.
  pose proof (plot_urls_outcome http_get image_open arr titles filename w
                1 ny Hs) as Ho.
  destruct (plot_urls http_get image_open arr titles filename w)
    as [r w'] eqn:E. simpl in Ho.
  assert (Hr : exists e, r = Raise e).
  { destruct r as [[] | e]; [| eauto]. exfalso.
    symmetry in Ho. apply render_outcome_Ok in Ho. lia. }
  destruct Hr as [e ->]. exists e, w'. split; [reflexivity |].
  split; [exact (plot_urls_Raise_keeps_files _ _ _ _ _ _ _ _ _ _ Hs E) |].
  unfold render_outcome in Ho. split; [| split].
  - intros ->. simpl in Ho. now inversion Ho.
  - intros ->. simpl in Ho. now inversion Ho.
  - intros Hy url img t Hu Hf Ht.
    destruct ny as [| [| ny]]; try lia.
    simpl in Ho. unfold cell_draw at 1 in Ho. simpl in Ho, Ht.
    rewrite Hu, Ht, Hf in Ho. now inversion Ho.
Qed.

Lemma plot_urls_single_row_fails_witness :
  exists e w',
    plot_urls demo_http demo_decode
      (mkArray [1; 2] [[VString "u1"; VString "u6"]]) ["Original"]
      "./grid.png" demo_world = (Raise e, w') /\
    artifacts w' = artifacts demo_world /\
    (2 = 0 -> e = ValueError) /\
    (2 = 1 -> e = AttributeError) /\
    (2 <= 2 ->
     forall url img t,
       nth_error2 (data (mkArray [1; 2] [[VString "u1"; VString "u6"]])) 0 0
       = Some url ->
       fetch demo_http demo_decode url = Ok img ->
       nth_error ["Original"] 0 = Some t ->
       e = IndexError).
Proof.
  apply (plot_urls_single_row_fails demo_http demo_decode
           (mkArray [1; 2] [[VString "u1"; VString "u6"]]) ["Original"]
           "./grid.png" demo_world 2).
  reflexivity.
Defined.

(* ================================================================== *)
(** ** Further properties of the orchestrator and the driver *)

Lemma foldM_app {A B} (f : A -> B -> M A) l1 l2 : forall a w,
  foldM f a (l1 ++ l2) w = (a' <- foldM f a l1 ;; foldM f a' l2) w.
Proof.
  induction l1 as [| x l1 IH]; intros a w; simpl.
  - reflexivity.
  - unfold bind. destruct (f a x w) as [[a1 | e] w1]; [| reflexivity].
    rewrite IH. reflexivity.
Qed.

(** X3. Orchestrating over a concatenated sequence of conditions is
    orchestrating over the first sequence and then, on its result, over
    the second: outcome, table and requests are the same. *)
Theorem add_matches_app classes1 classes2 cknn df w :
  add_matches (classes1 ++ classes2) cknn df w
  = (r <- add_matches classes1 cknn df ;; add_matches classes2 cknn r) w.
Proof. unfold add_matches. apply foldM_app. Qed.

Lemma add_matches_nrows classes cknn : forall df w out w',
  add_matches classes cknn df w = (Ok out, w') -> nrows out = nrows df.
Proof.
  unfold add_matches.
  induction classes as [| l rest IH]; intros df w out w' H; simpl in H.
  - now inversion H.
  - apply bind_Ok in H as (df1 & w1 & Hstep & H).
    apply add_matches_step_Ok in Hstep as [cells ->].
    apply IH in H. rewrite H. simpl. unfold withColumn.
    now rewrite !set_column_nrows.
Qed.

(** X4. When no row of the data has its id among the test ids and both
    orchestrations return, the driver raises ValueError, from the grid
    without rows it asks pyplot for, and writes no file. *)
Theorem test_all_no_query_rows
    http_get image_open data cm cc ids root w test_df w1 rm w2 rc w3 :
  where_ (is_nice_obj ids) "id" data w = (Ok test_df, w1) ->
  nrows test_df = 0 ->
  add_matches mediums cm test_df w1 = (Ok rm, w2) ->
  add_matches cultures cc rm w2 = (Ok rc, w3) ->
  exists w',
    test_all http_get image_open data cm cc ids root w
    = (Raise ValueError, w') /\
    artifacts w' = artifacts w.
Proof.
  intros H1 Hn H2 H3.
  assert (Hrc : collect rc = []).
  { unfold collect.
    rewrite (add_matches_nrows _ _ _ _ _ _ H3),
      (add_matches_nrows _ _ _ _ _ _ H2), Hn. reflexivity. }
  pose proof (framed_where_ _ _ _ (framed_is_nice_obj ids) _ _ _ H1)
    as (_ & _ & _ & A1).
  pose proof (framed_add_matches _ _ _ _ _ _ H2) as (_ & _ & _ & A2).
  pose proof (framed_add_matches _ _ _ _ _ _ H3) as (_ & _ & _ & A3).
  unfold test_all. unfold bind at 1. rewrite H1.
  unfold bind at 1. rewrite H2. unfold bind at 1. rewrite H3.
  cbv zeta. rewrite Hrc.
  eexists. split; [reflexivity |]. simpl. congruence.
Qed.

Lemma test_all_no_query_rows_witness :
  exists w',
    test_all demo_http demo_decode demo_store medium_cknn_params
      culture_cknn_params ["zz"] "./" demo_world
    = (Raise ValueError, w') /\
    artifacts w' = artifacts demo_world.
Proof.
  eapply (test_all_no_query_rows demo_http demo_decode demo_store
            medium_cknn_params culture_cknn_params ["zz"] "./" demo_world).
  - vm_compute. reflexivity.
  - reflexivity.
  - vm_compute. reflexivity.
  - vm_compute. reflexivity.
Defined.

(* ================================================================== *)
(** ** The working set of the notebook *)

Lemma select_mask_nil {A} (mask : list bool) : select_mask mask (@nil A) = [].
Proof. destruct mask as [| [|] mask]; reflexivity. Qed.

(** Filtering by a mask and then by a second one that the first implies
    is filtering by the second. *)
Lemma select_mask_twice {A} m1 m2 :
  Forall2 (fun b1 b2 : bool => b1 = false -> b2 = false) m1 m2 ->
  forall c : list A,
    select_mask (select_mask m1 m2) (select_mask m1 c) = select_mask m2 c.
Proof.
  induction 1 as [| b1 b2 m1 m2 Hb _ IH]; intros c.
  - reflexivity.
  - destruct c as [| x c].
    + rewrite !select_mask_nil. reflexivity.
    + destruct b1; simpl.
      * destruct b2; simpl; now rewrite IH.
      * rewrite (Hb eq_refl). apply IH.
Qed.

Lemma select_mask_count m1 m2 :
  Forall2 (fun b1 b2 : bool => b1 = false -> b2 = false) m1 m2 ->
  length (filter (fun b => b) (select_mask m1 m2))
  = length (filter (fun b : bool => b) m2).
Proof.
  induction 1 as [| b1 b2 m1 m2 Hb _ IH]; [reflexivity |].
  destruct b1; simpl.
  - destruct b2; simpl; now rewrite IH.
  - rewrite (Hb eq_refl). exact IH.
Qed.

(** A test that is false wherever the mask is false gives, on the kept
    elements, the kept part of what it gives on all of them, and fails on
    them exactly when it fails at all. *)
Lemma mapR_select {A} (p : A -> Result bool) m1 xs :
  Forall2 (fun (b : bool) x => b = false -> p x = Ok false) m1 xs ->
  mapR p (select_mask m1 xs)
  = match mapR p xs with
    | Ok m2 => Ok (select_mask m1 m2)
    | Raise e => Raise e
    end.
Proof.
  induction 1 as [| b x m1 xs Hb _ IH]; [reflexivity |].
  destruct b; simpl.
  - destruct (p x) as [y | e]; [| reflexivity]. rewrite IH.
    destruct (mapR p xs); reflexivity.
  - rewrite (Hb eq_refl), IH. destruct (mapR p xs); reflexivity.
Qed.

Lemma filter_map_snd (g : list Value -> list Value) name
    (cs : list (string * list Value)) :
  filter (fun c => same_name (fst c) name)
    (map (fun c => (fst c, g (snd c))) cs)
  = map (fun c => (fst c, g (snd c)))
      (filter (fun c => same_name (fst c) name) cs).
Proof.
  induction cs as [| c cs IH]; simpl; [reflexivity |].
  destruct (same_name (fst c) name); simpl; now rewrite IH.
Qed.

Lemma resolve_map_snd (g : list Value -> list Value) name n n' cs :
  resolve name (mkDataFrame n (map (fun c => (fst c, g (snd c))) cs))
  = option_map g (resolve name (mkDataFrame n' cs)).
Proof.
  unfold resolve. simpl. rewrite filter_map_snd.
  destruct (filter (fun c => same_name (fst c) name) cs) as [| c [| c' l]];
    reflexivity.
Qed.

Lemma resolve_length name df cells :
  rectangular df -> resolve name df = Some cells ->
  length cells = nrows df.
Proof.
  unfold rectangular, resolve. intros Hr H.
  destruct (filter (fun c => same_name (fst c) name) (cols df))
    as [| c [| c' l]] eqn:E; try discriminate.
  inversion H; subst.
  assert (Hin : In c (cols df)).
  { eapply proj1. apply filter_In. rewrite E. now left. }
  rewrite Forall_forall in Hr. now apply Hr.
Qed.

Lemma where_spec (p : Value -> Result bool) name df w :
  where_ (fun v => liftR (p v)) name df w
  = (match resolve name df with
     | None => Raise (AnalysisException name)
     | Some cells =>
         match mapR p cells with
         | Ok mask =>
             Ok (mkDataFrame (length (filter (fun b => b) mask))
                   (map (fun c => (fst c, select_mask mask (snd c)))
                      (cols df)))
         | Raise e => Raise e
         end
     end, w).
Proof.
  unfold where_, col, lift, of_option. unfold bind at 1. unfold liftR at 1.
  destruct (resolve name df) as [cells |]; [| reflexivity].
  unfold bind. rewrite mapM_liftR.
  destruct (mapR p cells); reflexivity.
Qed.

Lemma small_df_Ok df w small w1 :
  small_df df w = (Ok small, w1) ->
  w1 = w /\
  exists meds culs ids mask,
    resolve "Classification" df = Some meds /\
    resolve "Culture" df = Some culs /\
    resolve "id" df = Some ids /\
    mapR keep_row (combine meds (combine culs ids)) = Ok mask /\
    small = mkDataFrame (length (filter (fun b => b) mask))
              (map (fun c => (fst c, select_mask mask (snd c))) (cols df)).
Proof.
  unfold small_df, col. intros H.
  apply bind_Ok in H as (meds & w2 & Hm & H).
  apply liftR_inv in Hm as [Hm ->].
  apply bind_Ok in H as (culs & w2 & Hc & H).
  apply liftR_inv in Hc as [Hc ->].
  apply bind_Ok in H as (ids & w2 & Hi & H).
  apply liftR_inv in Hi as [Hi ->].
  apply bind_Ok in H as (mask & w2 & Hk & H).
  rewrite mapM_liftR in Hk. apply pair_equal_spec in Hk as [Hk <-].
  inversion H; subst. split; [reflexivity |].
  exists meds, culs, ids, mask. unfold of_option in *.
  destruct (resolve "Classification" df); [| discriminate].
  destruct (resolve "Culture" df); [| discriminate].
  destruct (resolve "id" df); [| discriminate].
  inversion Hm; inversion Hc; inversion Hi; subst. auto.
Qed.

Lemma Forall2_combine3 {A B C D} (R : A * (B * C) -> D -> Prop) :
  forall (cs : list C) (as_ : list A) (bs : list B) (ds : list D),
  length as_ = length cs -> length bs = length cs ->
  Forall2 R (combine as_ (combine bs cs)) ds ->
  Forall2 (fun z d => exists x y, R (x, (y, z)) d) cs ds.
Proof.
  induction cs as [| z cs IH]; intros [| x as_] [| y bs] ds Ha Hb H;
    simpl in *; try discriminate.
  - inversion H. constructor.
  - inversion H; subst. constructor; [eauto |].
    apply (IH as_ bs); auto.
Qed.

Lemma in_set_incl s1 s2 v :
  incl s1 s2 -> in_set s2 v = Ok false -> in_set s1 v = Ok false.
Proof.
  intros Hi. destruct v as [| x | | |]; simpl; auto.
  intros H. f_equal. inversion H as [E].
  destruct (existsb (String.eqb x) s1) eqn:E1; [| now rewrite E].
  apply existsb_exists in E1 as (y & Hy & Hxy).
  assert (E2 : existsb (String.eqb x) s2 = true)
    by (apply existsb_exists; exists y; auto).
  congruence.
Qed.

Lemma keep_row_false s medium culture id_val :
  incl s selected_ids ->
  keep_row (medium, (culture, id_val)) = Ok false ->
  in_set s id_val = Ok false.
Proof.
  intros Hi. unfold keep_row.
  destruct (in_set mediums medium) as [[|] |]; try discriminate.
  destruct (in_set cultures culture) as [[|] |]; try discriminate.
  now apply in_set_incl.
Qed.

(** X5. The working set keeps every query entity: on a rectangular table,
    once the working set is built, selecting rows by any set of ids
    contained in the selected ids gives the same outcome, table or
    exception, on the working set as on the full table, whatever the
    medium and culture of those rows. *)
Theorem small_df_keeps_queries test_ids df w small w1 :
  rectangular df ->
  incl test_ids selected_ids ->
  small_df df w = (Ok small, w1) ->
  where_ (is_nice_obj test_ids) "id" small w1
  = where_ (is_nice_obj test_ids) "id" df w1.
Proof.
  intros Hrect Hincl H.
  apply small_df_Ok in H
    as (-> & meds & culs & ids & m1 & Hm & Hc & Hi & Hk & ->).
  change (is_nice_obj test_ids) with (fun v => liftR (in_set test_ids v)).
  rewrite !where_spec. destruct df as [n cs]. simpl cols in *.
  rewrite (resolve_map_snd (select_mask m1) "id" _ n).
  rewrite Hi. simpl option_map. cbv iota beta.
  assert (F1 : Forall2 (fun (b : bool) x => b = false ->
                          in_set test_ids x = Ok false) m1 ids).
  { apply mapR_Ok_Forall2 in Hk.
    apply Forall2_combine3 in Hk.
    - apply Forall2_flip.
      eapply Forall2_impl; [| exact Hk].
      intros z b (x & y & Hxy) ->. simpl in Hxy.
      eapply keep_row_false; eauto.
    - rewrite (resolve_length _ _ _ Hrect Hm).
      now rewrite (resolve_length _ _ _ Hrect Hi).
    - rewrite (resolve_length _ _ _ Hrect Hc).
      now rewrite (resolve_length _ _ _ Hrect Hi). }
  rewrite (mapR_select _ _ _ F1).
  destruct (mapR (in_set test_ids) ids) as [m2 | e] eqn:E2; [| reflexivity].
  assert (F2 : Forall2 (fun b1 b2 : bool => b1 = false -> b2 = false) m1 m2).
  { apply mapR_Ok_Forall2 in E2. clear - F1 E2.
    revert m2 E2. induction F1 as [| b x m1 ids Hb _ IH]; intros m2 E2;
      inversion E2; subst; constructor; auto.
    intros Hf. specialize (Hb Hf). congruence. }
  rewrite (select_mask_count _ _ F2). do 3 f_equal.
  rewrite map_map. apply map_ext. intros c. simpl.
  now rewrite (select_mask_twice _ _ F2).
Qed.

Lemma small_df_keeps_queries_witness :
  where_ (is_nice_obj ["AK-MAK-1204"]) "id"
    (mkDataFrame 3
       [("id", [VString "AK-MAK-1204"; VString "x2"; VString "x3"]);
        ("Culture", [VString "dutch"; VString "japanese"; VString "dutch"]);
        ("Classification", [VString "prints"; VString "prints";
                            VString "glass"])])
    demo_world
  = where_ (is_nice_obj ["AK-MAK-1204"]) "id" demo_rows demo_world.
Proof.
  apply (small_df_keeps_queries ["AK-MAK-1204"] demo_rows demo_world).
  - repeat constructor.
  - intros x [<- | []]. simpl. auto.
  - reflexivity.
Defined.

(* ================================================================== *)
(** ** Looking up and chaining the results of the orchestrator *)

Lemma absent_conditioned name l df :
  absent name (cols df) -> same_name "conditioner" name = false ->
  absent name (cols (conditioned l df)).
Proof.
  intros Ha Hn.
  unfold conditioned, withColumn, set_column.
  destruct (has_column "conditioner" df); cbn [cols].
  - unfold absent in *. induction (cols df) as [| c cs IH];
      [reflexivity |].
    cbn [existsb map] in *.
    apply orb_false_iff in Ha as [H1 H2].
    destruct (same_name (fst c) "conditioner"); cbn [fst];
      rewrite ?Hn, ?H1; cbn [orb]; auto.
  - apply absent_app. split; [exact Ha |]. unfold absent.
    cbn [existsb fst]. now rewrite Hn.
Qed.

Lemma filter_conditioned name l df :
  same_name "conditioner" name = false ->
  filter (fun c => same_name (fst c) name) (cols (conditioned l df))
  = filter (fun c => same_name (fst c) name) (cols df).
Proof.
  intros Hn.
  unfold conditioned, withColumn, set_column.
  destruct (has_column "conditioner" df); cbn [cols].
  - induction (cols df) as [| c cs IH]; [reflexivity |].
    cbn [map filter].
    destruct (same_name (fst c) "conditioner") eqn:E; cbn [fst].
    + rewrite (same_name_subst _ _ name E), Hn. exact IH.
    + destruct (same_name (fst c) name); now rewrite IH.
  - rewrite filter_app. cbn [filter fst]. rewrite Hn. apply app_nil_r.
Qed.

Lemma one_conditioner l df :
  length (filter (fun c => same_name (fst c) "conditioner") (cols df)) <= 1 ->
  length (filter (fun c => same_name (fst c) "conditioner")
            (cols (conditioned l df))) = 1.
Proof.
  intros H. destruct df as [n cs]. cbn [cols] in H.
  destruct (existsb (fun c => same_name (fst c) "conditioner") cs) eqn:E.
  - destruct (unique_column _ _ E H)
      as (pre & name & c & post & -> & Hn & Hp & Hq).
    rewrite conditioned_tbl by assumption. unfold tbl. cbn [cols].
    rewrite filter_app. cbn [filter fst]. names. rewrite filter_app.
    rewrite (absent_filter _ _ Hp), (absent_filter _ _ Hq). reflexivity.
  - rewrite conditioned_fresh by exact E. unfold tbl. cbn [cols].
    rewrite filter_app, (absent_filter _ _ E). reflexivity.
Qed.

Lemma filter_match_columns {B} (g : string -> B) name classes :
  (forall x, same_name (matches_col x) name = false) ->
  filter (fun c => same_name (fst c) name)
    (map (fun x => (matches_col x, g x)) classes) = [].
Proof.
  intros H. induction classes as [| x xs IH]; [reflexivity |].
  cbn [map filter fst]. now rewrite H.
Qed.

(** The fields of a collected row, looked up by their exact name. *)
Lemma collect_nth df j row :
  nth_error (collect df) j = Some row ->
  j < nrows df /\
  row = map (fun c => (fst c, nth j (snd c) VNull)) (cols df).
Proof.
  unfold collect. intros H. rewrite nth_error_map in H.
  destruct (nth_error (seq 0 (nrows df)) j) as [i |] eqn:E;
    [| discriminate].
  assert (Hj : j < nrows df).
  { rewrite <- (length_seq (nrows df) 0). apply nth_error_Some. congruence. }
  rewrite nth_error_seq_lt in E by exact Hj.
  inversion E; subst i. cbn [option_map Nat.add] in H. inversion H. auto.
Qed.

Lemma Row_get_cells j (cs : list (string * list Value)) name :
  Row_get (map (fun c => (fst c, nth j (snd c) VNull)) cs) name
  = option_map (fun c => nth j (snd c) VNull)
      (find (fun c => String.eqb (fst c) name) cs).
Proof.
  unfold Row_get. induction cs as [| c cs IH]; [reflexivity |].
  cbn [map find fst]. destruct (String.eqb (fst c) name); [reflexivity |].
  exact IH.
Qed.

Lemma find_app_none {A} (f : A -> bool) l1 l2 :
  (forall x, In x l1 -> f x = false) -> find f (l1 ++ l2) = find f l2.
Proof.
  induction l1 as [| x l1 IH]; intros H; [reflexivity |].
  cbn [app find]. rewrite (H x) by now left.
  apply IH. intros y Hy. apply H. now right.
Qed.

Lemma matches_col_inj a b : matches_col a = matches_col b -> a = b.
Proof. unfold matches_col. intros H. now inversion H. Qed.

(** The first column named for a condition is the column of its first
    occurrence. *)
Lemma find_match_column {B} (g : string -> B) l classes :
  In l classes ->
  find (fun c => String.eqb (fst c) (matches_col l))
    (map (fun x => (matches_col x, g x)) classes)
  = Some (matches_col l, g l).
Proof.
  induction classes as [| x xs IH]; intros Hin; [destruct Hin |].
  cbn [map find fst].
  destruct (String.eqb (matches_col x) (matches_col l)) eqn:E.
  - apply String.eqb_eq, matches_col_inj in E. now subst x.
  - destruct Hin as [-> | Hin]; [| now apply IH].
    now rewrite String.eqb_refl in E.
Qed.

Lemma conditioned_columns l df name :
  In name (columns (conditioned l df)) ->
  In name (columns df) \/ name = "conditioner".
Proof.
  unfold columns, conditioned, withColumn, set_column.
  destruct (has_column "conditioner" df); cbn [cols].
  - rewrite map_map. intros H. apply in_map_iff in H as (c & <- & Hc).
    destruct (same_name (fst c) "conditioner"); [now right |].
    left. now apply in_map.
  - rewrite map_app. intros H. apply in_app_or in H as [H | [<- | []]];
      auto.
Qed.

(** X6. In every collected row of the result of an orchestration on a
    ready table that has no column named "Matches_<label>", the field
    [row["Matches_<label>"]] is the match result of that row's embedding
    for that label, for every label of the sequence, also for one that
    occurs more than once: the lookup takes the first of the columns of
    that name, and they are equal. *)
Theorem add_matches_row_lookup classes cknn df w tree vs l :
  ready cknn df w tree vs ->
  In l classes ->
  ~ In (matches_col l) (columns df) ->
  exists out w',
    add_matches classes cknn df w = (Ok out, w') /\
    length (collect out) = length vs /\
    forall j row,
      nth_error (collect out) j = Some row ->
      exists v,
        nth_error vs j = Some v /\
        Row_get row (matches_col l)
        = Some (VMatches (query tree v [l] (k cknn))).
Proof.
  intros Hs Hl Ha.
  assert (Hne : classes <> []) by (intros ->; destruct Hl).
  rewrite (add_matches_on_ready _ _ _ _ _ _ Hs Hne).
  destruct Hs as (_ & _ & _ & _ & _ & Hlen & _).
  eexists. eexists. split; [reflexivity |].
  split; [rewrite collect_length; cbn [nrows]; congruence |].
  intros j row Hrow. apply collect_nth in Hrow as [Hj ->].
  cbn [nrows cols] in *.
  destruct (nth_error vs j) as [v |] eqn:Hv.
  2:{ apply nth_error_None in Hv. lia. }
  exists v. split; [reflexivity |].
  rewrite Row_get_cells, find_app_none.
  - rewrite (find_match_column (match_cells cknn tree vs) l classes Hl).
    cbn [option_map snd]. f_equal. unfold match_cells.
    apply nth_error_nth.
    now rewrite (map_nth_error _ _ _ Hv).
  - intros c Hc.
    destruct (String.eqb (fst c) (matches_col l)) eqn:E; [| reflexivity].
    exfalso. apply String.eqb_eq in E.
    assert (Hin : In (matches_col l)
                    (columns (conditioned (last classes "") df))).
    { rewrite <- E. unfold columns. now apply in_map. }
    apply conditioned_columns in Hin as [Hin | Hin]; [now apply Ha |].
    discriminate Hin.
Qed.

Lemma add_matches_row_lookup_witness :
  exists out w',
    add_matches ["glass"; "stone"; "glass"] medium_cknn_params demo_queries
      demo_world = (Ok out, w') /\
    length (collect out) = length [[1; 0]%Z; [3; 3]%Z] /\
    forall j row,
      nth_error (collect out) j = Some row ->
      exists v,
        nth_error [[1; 0]%Z; [3; 3]%Z] j = Some v /\
        Row_get row (matches_col "glass")
        = Some (VMatches (query demo_medium_index v ["glass"]
                            (k medium_cknn_params))).
Proof.
  apply (add_matches_row_lookup ["glass"; "stone"; "glass"]
           medium_cknn_params demo_queries demo_world demo_medium_index
           [[1; 0]%Z; [3; 3]%Z] "glass").
  - repeat split; try reflexivity; simpl; lia.
  - simpl. auto.
  - simpl. intros H.
    repeat (destruct H as [H | H]; [discriminate H |]). exact H.
Defined.

Lemma ready_after_add_matches
    classes cknn df w tree vs out w' cknn2 tree2 :
  ready cknn df w tree vs ->
  add_matches classes cknn df w = (Ok out, w') ->
  outputCol cknn2 = "Matches" -> featuresCol cknn2 = "Norm_Features" ->
  lookup_index (labelCol cknn2) w = Some tree2 ->
  ready cknn2 out w' tree2 vs.
Proof.
  intros Hs H Ho2 Hf2 Hi2.
  assert (Hcase : classes = [] \/ classes <> [])
    by (destruct classes; [left; reflexivity | right; discriminate]).
  destruct Hs as (Hout & Hfeat & Hm & Hone & Hvs & Hlen & Hidx).
  destruct Hcase as [-> | Hne].
  { inversion H; subst. repeat split; assumption. }
  rewrite (add_matches_on_ready classes cknn df w tree vs) in H;
    [| repeat split; assumption | exact Hne].
  inversion H; subst out w'; clear H.
  repeat split; try assumption.
  - unfold has_column. cbn [cols]. apply absent_app. split.
    + apply absent_conditioned; [exact Hm | reflexivity].
    + apply absent_of_filter. now apply filter_match_columns.
  - cbn [cols]. rewrite filter_app, length_app.
    rewrite (one_conditioner _ _ Hone).
    rewrite filter_match_columns by reflexivity. reflexivity.
  - unfold resolve in *. cbn [cols]. rewrite filter_app.
    rewrite filter_conditioned by reflexivity.
    rewrite filter_match_columns by reflexivity. now rewrite app_nil_r.
Qed.

(** X7. The result of an orchestration is again a table an orchestration
    can run on, with the same embeddings, for any model configured as in
    the notebook whose index is bound: orchestrations chain, as the driver
    chains the one over the mediums and the one over the cultures. *)
Theorem add_matches_result_ready
    classes cknn df w tree vs out w' cknn2 tree2 :
  ready cknn df w tree vs ->
  add_matches classes cknn df w = (Ok out, w') ->
  outputCol cknn2 = "Matches" -> featuresCol cknn2 = "Norm_Features" ->
  lookup_index (labelCol cknn2) w = Some tree2 ->
  ready cknn2 out w' tree2 vs.
Proof. apply ready_after_add_matches. Qed.

Lemma add_matches_result_ready_witness :
  ready culture_cknn_params demo_medium_results
    (snd (add_matches mediums medium_cknn_params demo_queries demo_world))
    demo_culture_index [[1; 0]%Z; [3; 3]%Z].
Proof.
  apply (add_matches_result_ready mediums medium_cknn_params demo_queries
           demo_world demo_medium_index [[1; 0]%Z; [3; 3]%Z]
           demo_medium_results
           (snd (add_matches mediums medium_cknn_params demo_queries
                   demo_world))
           culture_cknn_params demo_culture_index).
  - repeat split; try reflexivity; simpl; lia.
  - reflexivity.
  - reflexivity.
  - reflexivity.
  - reflexivity.
Defined.

(* ================================================================== *)
(** ** The table the driver returns *)

Lemma same_data_refl w : same_data w w.
Proof. repeat split. Qed.

Lemma same_data_trans w1 w2 w3 :
  same_data w1 w2 -> same_data w2 w3 -> same_data w1 w3.
Proof.
  unfold same_data. intros (a & b & c) (a' & b' & c').
  repeat split; congruence.
Qed.

Lemma quiet_liftR {A} (x : Result A) : quiet (liftR x).
Proof. apply stable_liftR, same_data_refl. Qed.

Lemma quiet_ret {A} (a : A) : quiet (ret a).
Proof. apply stable_ret, same_data_refl. Qed.

Lemma quiet_bind {A B} (m : M A) (f : A -> M B) :
  quiet m -> (forall a, quiet (f a)) -> quiet (bind m f).
Proof. apply stable_bind, same_data_trans. Qed.

Lemma quiet_mapM {A B} (f : A -> M B) l :
  (forall x, quiet (f x)) -> quiet (mapM f l).
Proof.
  apply stable_mapM; [apply same_data_refl | apply same_data_trans].
Qed.

Lemma quiet_forM_ {A} (f : A -> M unit) l :
  (forall x, quiet (f x)) -> quiet (forM_ l f).
Proof.
  intros Hf. induction l as [| x xs IH]; simpl.
  - apply quiet_ret.
  - apply quiet_bind; [apply Hf | intros _; apply IH].
Qed.

Lemma quiet_set_canvas f : quiet (set_canvas f).
Proof. intros w r w' H. inversion H; subst. repeat split. Qed.

Lemma quiet_imshow axis img title : quiet (imshow axis img title).
Proof.
  intros w r w' H. unfold imshow in H.
  destruct (canvas w); inversion H; subst; repeat split.
Qed.

Lemma quiet_savefig filename : quiet (savefig filename).
Proof.
  intros w r w' H. unfold savefig in H.
  destruct (canvas w); [destruct (write_error w filename) |];
    inversion H; subst; repeat split.
Qed.

Create HintDb quiet.
#[local] Hint Resolve quiet_liftR quiet_ret quiet_bind quiet_mapM
  quiet_forM_ quiet_set_canvas quiet_imshow quiet_savefig : quiet.

Lemma quiet_plot_cell http_get image_open axes arr titles i j :
  quiet (plot_cell http_get image_open axes arr titles i j).
Proof.
  unfold plot_cell, plot_img, getitem2, getitem, lift.
  destruct (Nat.eqb j 0); auto 10 with quiet.
Qed.

Lemma quiet_plot_urls http_get image_open arr titles filename :
  quiet (plot_urls http_get image_open arr titles filename).
Proof.
  unfold plot_urls.
  assert (Hraise : quiet (@raise unit ValueError))
    by apply (quiet_liftR (Raise ValueError)).
  destruct (shape arr) as [| nx [| ny [| z l]]]; try exact Hraise.
  unfold figure, show, subplots.
  apply quiet_bind; [auto with quiet | intros _].
  apply quiet_bind.
  { destruct (Nat.eqb ny 0 || Nat.eqb nx 0);
      [apply (quiet_liftR (Raise ValueError)) | auto with quiet]. }
  intros axes0. apply quiet_bind; [auto with quiet | intros axes].
  apply quiet_bind; [| auto with quiet].
  apply quiet_forM_. intros i. apply quiet_forM_. intros j.
  apply quiet_plot_cell.
Qed.

(** A run of the driver that returns is the selection of the query rows,
    the orchestration over the mediums and the one over the cultures; the
    presentation that follows issues no request. *)
Lemma test_all_Ok_table http_get image_open data cm cc ids root w out w' :
  test_all http_get image_open data cm cc ids root w = (Ok out, w') ->
  exists test_df w1 rm w2 w3,
    where_ (is_nice_obj ids) "id" data w = (Ok test_df, w1) /\
    add_matches mediums cm test_df w1 = (Ok rm, w2) /\
    add_matches cultures cc rm w2 = (Ok out, w3) /\
    same_data w3 w'.
Proof.
  unfold test_all. intros H.
  apply bind_Ok in H as (test_df & w1 & H1 & H).
  apply bind_Ok in H as (rm & w2 & H2 & H).
  apply bind_Ok in H as (rc & w3 & H3 & H).
  cbv zeta in H.
  assert (Ht : same_data w3 w' /\ out = rc).
  { clear H1 H2 H3.
    apply bind_Ok in H as (originals & w4 & H4 & H).
    unfold Row_getitem, lift in H4. rewrite mapM_liftR in H4.
    apply pair_equal_spec in H4 as [_ <-].
    apply bind_Ok in H as (curls & w5 & H5 & H).
    apply bind_Ok in H as (carr & w6 & H6 & H).
    apply bind_Ok in H as ([] & w7 & H7 & H).
    apply bind_Ok in H as (murls & w8 & H8 & H).
    apply bind_Ok in H as (marr & w9 & H9 & H).
    apply bind_Ok in H as ([] & w10 & H10 & H).
    inversion H; subst. split; [| reflexivity].
    unfold first_match_value, np_array in *.
    assert (Q5 : same_data w3 w5)
      by (eapply (quiet_mapM _ _ (fun l => quiet_mapM _ _
                    (fun r => quiet_liftR _))); eauto).
    assert (Q6 : same_data w5 w6) by (eapply quiet_liftR; eauto).
    assert (Q7 : same_data w6 w7) by (eapply quiet_plot_urls; eauto).
    assert (Q8 : same_data w7 w8)
      by (eapply (quiet_mapM _ _ (fun l => quiet_mapM _ _
                    (fun r => quiet_liftR _))); eauto).
    assert (Q9 : same_data w8 w9) by (eapply quiet_liftR; eauto).
    assert (Q10 : same_data w9 w') by (eapply quiet_plot_urls; eauto).
    repeat (eapply same_data_trans; [eassumption |]). apply same_data_refl. }
  destruct Ht as [Hsd ->].
  exists test_df, w1, rm, w2, w3. auto.
Qed.

Lemma quiet_where_ ids name df : quiet (where_ (is_nice_obj ids) name df).
Proof. unfold where_, col, lift, is_nice_obj. auto 10 with quiet. Qed.

Lemma Ok_inj {A} (a b : A) : Ok a = Ok b -> a = b.
Proof. intros H. now inversion H. Qed.

Lemma conditioned_again l1 l2 df ms :
  absent "conditioner" ms ->
  cols (conditioned l2
          (mkDataFrame (nrows df) (cols (conditioned l1 df) ++ ms)))
  = cols (conditioned l2 df) ++ ms.
Proof.
  intros Hms. unfold conditioned, withColumn, set_column, has_column.
  unfold array_lit. cbn [nrows cols].
  destruct (existsb (fun c => same_name (fst c) "conditioner") (cols df))
    eqn:E; cbn [nrows cols].
  - assert (E' : existsb (fun c => same_name (fst c) "conditioner")
                   (map (fun c => if same_name (fst c) "conditioner"
                                  then ("conditioner",
                                        repeat (VArray [l1]) (nrows df))
                                  else c) (cols df) ++ ms) = true).
    { rewrite existsb_app. apply orb_true_iff. left.
      clear - E. induction (cols df) as [| c cs IH]; [discriminate |].
      cbn [existsb map] in *.
      destruct (same_name (fst c) "conditioner") eqn:Ec; [reflexivity |].
      rewrite Ec. simpl in *. auto. }
    rewrite E'. cbn [cols]. rewrite map_app, (absent_map _ _ _ Hms).
    f_equal. rewrite map_map. apply map_ext. intros c.
    destruct (same_name (fst c) "conditioner") eqn:Ec; [reflexivity |].
    now rewrite Ec.
  - assert (E' : existsb (fun c => same_name (fst c) "conditioner")
                   ((cols df ++ [("conditioner",
                                  repeat (VArray [l1]) (nrows df))]) ++ ms)
                 = true).
    { rewrite !existsb_app. rewrite E. reflexivity. }
    rewrite E'. cbn [cols]. rewrite !map_app.
    rewrite (absent_map _ _ _ Hms), (absent_map _ _ _ E). reflexivity.
Qed.

(** X8. When the driver returns, its table is the selected query rows with
    the conditioner column set to the last culture, followed by the match
    columns of the mediums, computed on the medium index, and then those of
    the cultures, computed on the culture index, all from the same
    embeddings; and the requests of the run are those of the two
    orchestrations, the presentation adding none. *)
Theorem test_all_returns_match_table
    http_get image_open data cm cc ids root w out w'
    test_df w1 treem treec vs :
  where_ (is_nice_obj ids) "id" data w = (Ok test_df, w1) ->
  ready cm test_df w1 treem vs ->
  outputCol cc = "Matches" -> featuresCol cc = "Norm_Features" ->
  lookup_index (labelCol cc) w1 = Some treec ->
  test_all http_get image_open data cm cc ids root w = (Ok out, w') ->
  nrows out = nrows test_df /\
  cols out =
    cols (conditioned (last cultures "") test_df)
    ++ map (fun l =>
              (matches_col l,
               map (fun v => VMatches (query treem v [l] (k cm))) vs))
         mediums
    ++ map (fun l =>
              (matches_col l,
               map (fun v => VMatches (query treec v [l] (k cc))) vs))
         cultures /\
  requests w' =
    requests w
    ++ flat_map (fun l => map (fun v => mkRequest (labelCol cm) v [l] (k cm))
                            vs) mediums
    ++ flat_map (fun l => map (fun v => mkRequest (labelCol cc) v [l] (k cc))
                            vs) cultures.
Proof.
  intros H1 Hr Ho Hf Hi H.
  pose proof (quiet_where_ _ _ _ _ _ _ H1) as (_ & _ & Hw1).
  apply test_all_Ok_table in H
    as (test_df' & w1' & rm & w2 & w3 & H1' & H2 & H3 & (_ & _ & Hreq)).
  rewrite H1 in H1'. inversion H1'; subst test_df' w1'; clear H1'.
  pose proof (ready_after_add_matches _ _ _ _ _ _ _ _ cc treec Hr H2 Ho Hf Hi)
    as Hr2.
  rewrite (add_matches_on_ready mediums cm test_df w1 treem vs Hr) in H2
    by discriminate.
  apply pair_equal_spec in H2 as [E2 <-]. apply Ok_inj in E2. subst rm.
  rewrite (add_matches_on_ready cultures cc _ _ treec vs Hr2) in H3
    by discriminate.
  apply pair_equal_spec in H3 as [E3 <-]. apply Ok_inj in E3. subst out.
  cbn [nrows cols]. split; [reflexivity |]. split.
  - rewrite conditioned_again.
    + rewrite <- app_assoc. reflexivity.
    + apply absent_of_filter. now apply filter_match_columns.
  - rewrite Hreq. unfold add_requests. cbn [requests].
    rewrite Hw1, <- app_assoc. reflexivity.
Qed.

Lemma test_all_returns_match_table_witness :
  nrows demo_driver_results = 2 /\
  cols demo_driver_results =
    cols (conditioned (last cultures "")
            (mkDataFrame 2
               [("id", [VString "a1"; VString "a6"]);
                ("Thumbnail_Url", [VString "u1"; VString "u6"]);
                ("Culture", [VString "japanese"; VString "dutch"]);
                ("Classification", [VString "paintings"; VString "ceramics"]);
                ("Norm_Features", [VVector [1; 0]%Z; VVector [3; 3]%Z])]))
    ++ map (fun l =>
              (matches_col l,
               map (fun v => VMatches (query demo_medium_index v [l]
                                         (k medium_cknn_params)))
                 [[1; 0]%Z; [3; 3]%Z]))
         mediums
    ++ map (fun l =>
              (matches_col l,
               map (fun v => VMatches (query demo_culture_index v [l]
                                         (k culture_cknn_params)))
                 [[1; 0]%Z; [3; 3]%Z]))
         cultures /\
  requests (snd (test_all demo_http demo_decode demo_store
                   medium_cknn_params culture_cknn_params ["a1"; "a6"]
                   "./" demo_world)) =
    requests demo_world
    ++ flat_map (fun l =>
                   map (fun v => mkRequest (labelCol medium_cknn_params) v
                                   [l] (k medium_cknn_params))
                     [[1; 0]%Z; [3; 3]%Z]) mediums
    ++ flat_map (fun l =>
                   map (fun v => mkRequest (labelCol culture_cknn_params) v
                                   [l] (k culture_cknn_params))
                     [[1; 0]%Z; [3; 3]%Z]) cultures.
Proof.
  apply (test_all_returns_match_table demo_http demo_decode demo_store
           medium_cknn_params culture_cknn_params ["a1"; "a6"] "./"
           demo_world demo_driver_results
           (snd (test_all demo_http demo_decode demo_store
                   medium_cknn_params culture_cknn_params ["a1"; "a6"]
                   "./" demo_world))
           (mkDataFrame 2
               [("id", [VString "a1"; VString "a6"]);
                ("Thumbnail_Url", [VString "u1"; VString "u6"]);
                ("Culture", [VString "japanese"; VString "dutch"]);
                ("Classification", [VString "paintings"; VString "ceramics"]);
                ("Norm_Features", [VVector [1; 0]%Z; VVector [3; 3]%Z])])
           demo_world demo_medium_index demo_culture_index
           [[1; 0]%Z; [3; 3]%Z]).
  - vm_compute. reflexivity.
  - repeat split; try reflexivity; simpl; lia.
  - reflexivity.
  - reflexivity.
  - reflexivity.
  - vm_compute. reflexivity.
Defined.

(* ================================================================== *)
(** ** The regression notebook *)

Lemma to_uint_not_Nil (n : nat) : Nat.to_uint n <> Decimal.Nil.
Proof.
  intro H. pose proof (DecimalNat.Unsigned.of_to n) as E.
  rewrite H in E. cbn in E. subst n. discriminate H.
Qed.

Lemma str_inj (i j : nat) : Regression.str i = Regression.str j -> i = j.
Proof.
  unfold Regression.str. intro H.
  apply DecimalNat.Unsigned.to_uint_inj.
  pose proof (DecimalString.NilZero.usu _ (to_uint_not_Nil i)) as Hi.
  pose proof (DecimalString.NilZero.usu _ (to_uint_not_Nil j)) as Hj.
  rewrite H in Hi. congruence.
Qed.

(** X9. The column names the regression notebook builds are pairwise
    distinct, whatever the number [d] of features: "target" followed by
    "f0", "f1", ..., so [columns[1:]] of a frame with this header is the
    list of the [d] feature names. *)
Theorem regression_header_distinct (d : nat) :
  NoDup (Regression.header d) /\
  Regression.features (Regression.header d) = Regression.feature_cols d /\
  length (Regression.feature_cols d) = d /\
  forall i, i < d ->
    nth_error (Regression.feature_cols d) i
    = Some ("f" ++ Regression.str i)%string.
Proof.
  unfold Regression.header, Regression.features, Regression.feature_cols.
  repeat split.
  - constructor.
    + rewrite in_map_iff. intros [i [E _]]. discriminate E.
    + apply Finite.Injective_map_NoDup; [| apply seq_NoDup].
      intros i j E. apply str_inj. now inversion E.
  - now rewrite length_map, length_seq.
  - intros i Hi. rewrite nth_error_map, nth_error_seq.
    apply Nat.ltb_lt in Hi. now rewrite Hi.
Qed.

Lemma for_each_emits {A} (l : list A) (f : A -> Regression.Plot unit)
    (g : A -> list Regression.Event) :
  (forall x s, In x l -> f x s = (Regression.Returns tt, s ++ g x)) ->
  forall s,
    Regression.for_each l f s = (Regression.Returns tt, s ++ flat_map g l).
Proof.
  induction l as [| x xs IH]; intros H s; cbn [Regression.for_each flat_map].
  - unfold Regression.pure. now rewrite app_nil_r.
  - unfold Regression.bind. rewrite H by now left.
    rewrite IH by (intros; apply H; now right).
    now rewrite app_assoc.
Qed.

Lemma axes_item_grid (r c irow icol : nat) :
  irow < r -> icol < c ->
  Regression.axes_item
    (Axes2D (map (fun r' => map (fun c' => (r', c')) (seq 0 c)) (seq 0 r)))
    irow icol
  = Regression.Returns (irow, icol).
Proof.
  intros Hr Hc. unfold Regression.axes_item.
  apply Nat.ltb_lt in Hr, Hc.
  rewrite nth_error_map, nth_error_seq, Hr. cbn [option_map Nat.add].
  rewrite nth_error_map, nth_error_seq, Hc. reflexivity.
Qed.

Lemma plot_cell_events (features : list string)
    (values : list (string * list Z)) (yy : list Z) (r irow icol : nat)
    (s : list Regression.Event) :
  irow < r -> icol < Regression.ncols ->
  (forall feat, In feat features ->
     exists xx, Regression.column values feat = Regression.Returns xx /\
                length xx = length yy) ->
  Regression.plot_cell
    (Axes2D (map (fun r' => map (fun c' => (r', c')) (seq 0 Regression.ncols))
               (seq 0 r)))
    features values yy irow icol s
  = (Regression.Returns tt,
     s ++ Regression.cell_events features values yy
            (irow * Regression.ncols + icol) (irow, icol)).
Proof.
  intros Hr Hc Hv.
  unfold Regression.plot_cell, Regression.try_except_IndexError,
    Regression.bind, Regression.lift, Regression.item,
    Regression.cell_events, Regression.column_data.
  rewrite (axes_item_grid r Regression.ncols irow icol Hr Hc).
  destruct (nth_error features (irow * Regression.ncols + icol))
    as [feat |] eqn:Ef.
  - destruct (Hv feat (nth_error_In _ _ Ef)) as [xx [Ex Hl]].
    rewrite Ex. unfold Regression.do_scatter.
    rewrite Hl, Nat.eqb_refl. unfold Regression.emit.
    now rewrite <- !app_assoc.
  - reflexivity.
Qed.

Lemma plot_features_events (features : list string)
    (values : list (string * list Z)) (yy : list Z) :
  6 <= length features ->
  (forall feat, In feat features ->
     exists xx, Regression.column values feat = Regression.Returns xx /\
                length xx = length yy) ->
  Regression.plot_features features values yy []
  = (Regression.Returns tt,
     flat_map (fun irow =>
       Regression.set_ylabel (irow, 0) "target" ::
       flat_map (fun icol =>
         Regression.cell_events features values yy
           (irow * Regression.ncols + icol) (irow, icol))
         (seq 0 Regression.ncols))
       (seq 0 (Regression.nrows features))).
Proof.
  intros Hn Hv.
  assert (Hr : 2 <= Regression.nrows features).
  { unfold Regression.nrows, Regression.ncols. cbn [Nat.sub].
    apply Nat.div_le_lower_bound; lia. }
  unfold Regression.plot_features, Regression.subplots.
  destruct (Regression.nrows features) as [| [| r]] eqn:Er; [lia | lia |].
  unfold Regression.bind at 1. cbn [Nat.eqb orb Regression.ncols].
  unfold Regression.pure at 1. unfold squeeze. cbn [Nat.eqb andb].
  change (Nat.eqb Regression.ncols 1) with false. cbv iota.
  rewrite (for_each_emits _ _ (fun irow =>
    Regression.set_ylabel (irow, 0) "target" ::
    flat_map (fun icol =>
      Regression.cell_events features values yy
        (irow * Regression.ncols + icol) (irow, icol))
      (seq 0 Regression.ncols))); [reflexivity |].
  intros irow s Hi. apply in_seq in Hi.
  unfold Regression.bind, Regression.lift.
  rewrite axes_item_grid by (unfold Regression.ncols; lia).
  unfold Regression.emit.
  rewrite (for_each_emits _ _ (fun icol =>
    Regression.cell_events features values yy
      (irow * Regression.ncols + icol) (irow, icol))).
  - now rewrite <- app_assoc.
  - intros icol s' Hc. apply in_seq in Hc.
    apply plot_cell_events; [lia | lia | exact Hv].
Qed.

Lemma flat_map_ext_In {A B} (f g : A -> list B) (l : list A) :
  (forall x, In x l -> f x = g x) -> flat_map f l = flat_map g l.
Proof.
  induction l as [| x xs IH]; intros H; cbn [flat_map]; [reflexivity |].
  rewrite H by now left. rewrite IH; [reflexivity |].
  intros; apply H; now right.
Qed.

Lemma flat_map_flat_map {A B C} (h : B -> list C) (g : A -> list B)
    (l : list A) :
  flat_map h (flat_map g l) = flat_map (fun x => flat_map h (g x)) l.
Proof.
  induction l as [| x xs IH]; cbn [flat_map]; [reflexivity |].
  now rewrite flat_map_app, IH.
Qed.

Lemma flat_map_map_inner {A B C} (f : B -> list C) (g : A -> B)
    (l : list A) :
  flat_map f (map g l) = flat_map (fun x => f (g x)) l.
Proof.
  induction l as [| x xs IH]; cbn [flat_map map]; [reflexivity |].
  now rewrite IH.
Qed.

Lemma flat_map_singleton {A B} (h : A -> B) (l : list A) :
  flat_map (fun x => [h x]) l = map h l.
Proof.
  induction l as [| x xs IH]; cbn [flat_map map app]; [reflexivity |].
  now rewrite IH.
Qed.

Lemma flat_map_nothing {A B} (l : list A) :
  flat_map (fun _ : A => @nil B) l = [].
Proof.
  induction l as [| x xs IH]; cbn [flat_map app]; [reflexivity | exact IH].
Qed.

Lemma seq_offset (s n : nat) : seq s n = map (fun i => s + i) (seq 0 n).
Proof.
  induction n as [| n IH]; [reflexivity |].
  rewrite !seq_S, map_app, <- IH. reflexivity.
Qed.

Lemma place_cell (irow icol : nat) :
  icol < Regression.ncols ->
  Regression.place (irow * Regression.ncols + icol) = (irow, icol).
Proof.
  unfold Regression.place, Regression.ncols. intros H. f_equal.
  - symmetry. apply Nat.div_unique with icol; lia.
  - symmetry. apply Nat.mod_unique with irow; lia.
Qed.

(** The nested loops visit the cells in reading order. *)
Lemma grid_reading_order {B} (F : nat -> nat * nat -> list B) (r : nat) :
  flat_map (fun irow =>
    flat_map (fun icol => F (irow * Regression.ncols + icol) (irow, icol))
      (seq 0 Regression.ncols))
    (seq 0 r)
  = flat_map (fun t => F t (Regression.place t))
      (seq 0 (Regression.ncols * r)).
Proof.
  induction r as [| r IH].
  - now rewrite Nat.mul_0_r.
  - rewrite seq_S, flat_map_app, IH, Nat.mul_succ_r, seq_app, flat_map_app.
    f_equal. cbn [flat_map Nat.add]. rewrite app_nil_r.
    rewrite (seq_offset (Regression.ncols * r)), flat_map_map_inner.
    apply flat_map_ext_In. intros icol Hc. apply in_seq in Hc.
    replace (Regression.ncols * r + icol)
      with (r * Regression.ncols + icol) by lia.
    rewrite place_cell by lia. reflexivity.
Qed.

(** Cells up to the number of features have one; the others have none. *)
Lemma split_cells {B} (features : list string) (P : nat -> string -> list B)
    (Q : nat -> list B) (m : nat) :
  length features <= m ->
  flat_map (fun t => match nth_error features t with
                     | Some feat => P t feat
                     | None => Q t
                     end) (seq 0 m)
  = flat_map (fun t => P t (nth t features "")) (seq 0 (length features))
    ++ flat_map Q (seq (length features) (m - length features)).
Proof.
  intros H.
  replace m with (length features + (m - length features)) at 1 by lia.
  rewrite seq_app, flat_map_app. f_equal.
  - apply flat_map_ext_In. intros t Ht. apply in_seq in Ht.
    rewrite (nth_error_nth' features ""); [reflexivity | lia].
  - apply flat_map_ext_In. intros t Ht. apply in_seq in Ht.
    destruct (nth_error features t) eqn:E; [| reflexivity].
    assert (t < length features) by (apply nth_error_Some; congruence). lia.
Qed.

Lemma nrows_covers (features : list string) :
  length features <= Regression.ncols * Regression.nrows features /\
  Regression.ncols * Regression.nrows features - length features
  < Regression.ncols.
Proof.
  unfold Regression.nrows, Regression.ncols. cbn [Nat.sub].
  pose proof (Nat.div_mod_eq (length features + 4) 5) as E.
  pose proof (Nat.mod_upper_bound (length features + 4) 5) as U.
  lia.
Qed.

(** X10. With six or more features, each a column of [values] as long as
    [yy], the feature-grid cell of the regression notebook returns; it
    scatters and labels feature number t on the axes of row t / 5 and
    column t mod 5, each feature once and in order; it deletes exactly the
    left-over axes of the last row, fewer than five; and it labels the y
    axis of the first axes of every row. *)
Theorem regression_plot_features_grid (features : list string)
    (values : list (string * list Z)) (yy : list Z) :
  6 <= length features ->
  (forall feat, In feat features ->
     exists xx, Regression.column values feat = Regression.Returns xx /\
                length xx = length yy) ->
  exists evs,
    Regression.plot_features features values yy []
    = (Regression.Returns tt, evs) /\
    Regression.labelled evs
    = map (fun t => (Regression.place t, nth t features ""))
        (seq 0 (length features)) /\
    Regression.scattered evs
    = map (fun t => (Regression.place t,
                     Regression.column_data values (nth t features "")))
        (seq 0 (length features)) /\
    Regression.deleted evs
    = map Regression.place
        (seq (length features)
           (Regression.ncols * Regression.nrows features
            - length features)) /\
    Regression.ncols * Regression.nrows features - length features
    < Regression.ncols /\
    Regression.ylabelled evs
    = map (fun irow => (irow, 0)) (seq 0 (Regression.nrows features)).
Proof.
  intros Hn Hv. eexists. split; [apply plot_features_events; assumption |].
  destruct (nrows_covers features) as [Hle Hlt].
  repeat split.
  - unfold Regression.labelled. rewrite flat_map_flat_map.
    cbn [flat_map app]. 
    rewrite (flat_map_ext _ _ (fun irow =>
      flat_map_flat_map _ _ (seq 0 Regression.ncols))).
    rewrite (grid_reading_order (fun t axis =>
      flat_map _ (Regression.cell_events features values yy t axis))).
    rewrite (flat_map_ext _ (fun t =>
      match nth_error features t with
      | Some feat => [(Regression.place t, feat)]
      | None => []
      end)).
    + rewrite (split_cells features
        (fun t feat => [(Regression.place t, feat)]) (fun _ => [])) by exact Hle.
      now rewrite flat_map_nothing, app_nil_r, flat_map_singleton.
    + intros t. unfold Regression.cell_events.
      now destruct (nth_error features t).
  - unfold Regression.scattered. rewrite flat_map_flat_map.
    cbn [flat_map app].
    rewrite (flat_map_ext _ _ (fun irow =>
      flat_map_flat_map _ _ (seq 0 Regression.ncols))).
    rewrite (grid_reading_order (fun t axis =>
      flat_map _ (Regression.cell_events features values yy t axis))).
    rewrite (flat_map_ext _ (fun t =>
      match nth_error features t with
      | Some feat =>
          [(Regression.place t, Regression.column_data values feat)]
      | None => []
      end)).
    + rewrite (split_cells features
        (fun t feat =>
           [(Regression.place t, Regression.column_data values feat)])
        (fun _ => [])) by exact Hle.
      now rewrite flat_map_nothing, app_nil_r, flat_map_singleton.
    + intros t. unfold Regression.cell_events.
      now destruct (nth_error features t).
  - unfold Regression.deleted. rewrite flat_map_flat_map.
    cbn [flat_map app].
    rewrite (flat_map_ext _ _ (fun irow =>
      flat_map_flat_map _ _ (seq 0 Regression.ncols))).
    rewrite (grid_reading_order (fun t axis =>
      flat_map _ (Regression.cell_events features values yy t axis))).
    rewrite (flat_map_ext _ (fun t =>
      match nth_error features t with
      | Some feat => []
      | None => [Regression.place t]
      end)).
    + rewrite (split_cells features (fun _ _ => [])
        (fun t => [Regression.place t])) by exact Hle.
      now rewrite flat_map_nothing, flat_map_singleton.
    + intros t. unfold Regression.cell_events.
      now destruct (nth_error features t).
  - exact Hlt.
  - unfold Regression.ylabelled. rewrite flat_map_flat_map.
    cbn [flat_map app].
    rewrite (flat_map_ext _ (fun irow => [(irow, 0)])).
    + apply flat_map_singleton.
    + intros irow. f_equal. rewrite flat_map_flat_map.
      rewrite (flat_map_ext _ (fun _ => [])); [apply flat_map_nothing |].
      intros icol. unfold Regression.cell_events.
      now destruct (nth_error features _).
Qed.

(** X11. With five features or fewer the same cell raises before it draws
    anything: ValueError from [plt.subplots] when there is no feature (no
    row), TypeError otherwise, as the single row of axes comes back as a
    one-dimensional array and [axes[irow][0]] indexes an axes object. *)
Theorem regression_plot_features_few (features : list string)
    (values : list (string * list Z)) (yy : list Z) :
  length features <= 5 ->
  Regression.plot_features features values yy []
  = (Regression.Raises
       (match features with
        | [] => Regression.ValueError
        | _ :: _ => Regression.TypeError
        end), []).
Proof.
  intros H.
  destruct features as [| f1 [| f2 [| f3 [| f4 [| f5 [| f6 l]]]]]];
    cbn [length] in H; try lia; reflexivity.
Qed.

Lemma regression_header_distinct_witness :
  NoDup (Regression.header 8) /\
  nth_error (Regression.feature_cols 8) 7 = Some "f7".
Proof.
  destruct (regression_header_distinct 8) as [Hd [_ [_ Hn]]].
  split; [exact Hd |]. apply (Hn 7). lia.
Defined.

Lemma regression_plot_features_grid_witness :
  exists evs,
    Regression.plot_features (Regression.feature_cols 8) demo_housing
      [10%Z; 20%Z] []
    = (Regression.Returns tt, evs) /\
    Regression.labelled evs
    = [((0, 0), "f0"); ((0, 1), "f1"); ((0, 2), "f2"); ((0, 3), "f3");
       ((0, 4), "f4"); ((1, 0), "f5"); ((1, 1), "f6"); ((1, 2), "f7")] /\
    Regression.deleted evs = [(1, 3); (1, 4)] /\
    Regression.ylabelled evs = [(0, 0); (1, 0)].
Proof.
  destruct (regression_plot_features_grid (Regression.feature_cols 8)
              demo_housing [10%Z; 20%Z])
    as [evs [Hrun [Hl [_ [Hd [_ Hy]]]]]].
  - cbn. lia.
  - intros feat Hf. cbn in Hf.
    repeat (destruct Hf as [<- | Hf]; [eexists; split; reflexivity |]).
    contradiction.
  - exists evs. repeat split; [exact Hrun | | |].
    + rewrite Hl. reflexivity.
    + rewrite Hd. reflexivity.
    + rewrite Hy. reflexivity.
Defined.

Lemma regression_plot_features_few_witness :
  Regression.plot_features (Regression.feature_cols 3) demo_housing
    [10%Z; 20%Z] []
  = (Regression.Raises Regression.TypeError, []) /\
  Regression.plot_features [] demo_housing [10%Z; 20%Z] []
  = (Regression.Raises Regression.ValueError, []).
Proof.
  split.
  - apply (regression_plot_features_few (Regression.feature_cols 3)
             demo_housing [10%Z; 20%Z]).
    cbn. lia.
  - apply (regression_plot_features_few [] demo_housing [10%Z; 20%Z]).
    cbn. lia.
Defined.
